(** * verify_profile_page.py: a Playwright scenario, embedded and verified

    The repository is one Python script,
    [jules-scratch/verification/verify_profile_page.py].  It drives a
    browser through the login and profile pages of an admin panel and
    saves a screenshot.  The script is embedded below as a program in a
    state-and-exception monad over an abstract automation library; the
    log of library calls is part of the state, so that ordering,
    propagation of errors and the life time of resources are properties
    of that log. *)

From Stdlib Require Import Ascii String.
From stdpp Require Import base option list strings gmap.

Open Scope string_scope.
Open Scope list_scope.

(** * Part I: the embedding *)

(** ** Regular expressions: the subset of [re] the script uses *)

Module Re.

Definition text := list ascii.

Inductive regex : Type :=
| Void                      (* matches nothing; only produced by derivatives *)
| Eps                       (* the empty pattern *)
| Chr (c : ascii)            (* a literal character *)
| Dot                       (* [.]: any character except a line terminator *)
| Alt (r1 r2 : regex)         (* produced by derivatives of [Cat] *)
| Cat (r1 r2 : regex)
| Star (r : regex).

Definition line_terminator (c : ascii) : bool :=
  (Ascii.eqb c "010" || Ascii.eqb c "013")%char.

(** The denotation of a pattern: the texts it matches exactly. *)
Inductive lang : regex -> text -> Prop :=
| lang_eps : lang Eps []
| lang_chr c : lang (Chr c) [c]
| lang_dot c : line_terminator c = false -> lang Dot [c]
| lang_alt_l r1 r2 s : lang r1 s -> lang (Alt r1 r2) s
| lang_alt_r r1 r2 s : lang r2 s -> lang (Alt r1 r2) s
| lang_cat r1 r2 s1 s2 : lang r1 s1 -> lang r2 s2 -> lang (Cat r1 r2) (s1 ++ s2)
| lang_star_nil r : lang (Star r) []
| lang_star_app r s1 s2 : lang r s1 -> lang (Star r) s2 -> lang (Star r) (s1 ++ s2).

Fixpoint nullable (r : regex) : bool :=
  match r with
  | Void | Chr _ | Dot => false
  | Eps | Star _ => true
  | Alt r1 r2 => nullable r1 || nullable r2
  | Cat r1 r2 => nullable r1 && nullable r2
  end.

Fixpoint deriv (a : ascii) (r : regex) : regex :=
  match r with
  | Void | Eps => Void
  | Chr c => if Ascii.eqb a c then Eps else Void
  | Dot => if line_terminator a then Void else Eps
  | Alt r1 r2 => Alt (deriv a r1) (deriv a r2)
  | Cat r1 r2 =>
      if nullable r1
      then Alt (Cat (deriv a r1) r2) (deriv a r2)
      else Cat (deriv a r1) r2
  | Star r1 => Cat (deriv a r1) (Star r1)
  end.

(** [fullmatch]: the whole text is in the language of the pattern. *)
Fixpoint fullmatch (r : regex) (s : text) : bool :=
  match s with
  | [] => nullable r
  | a :: s' => fullmatch (deriv a r) s'
  end.

(** [match_]: some prefix of the text is (Python's [Pattern.match]). *)
Fixpoint match_ (r : regex) (s : text) : bool :=
  nullable r ||
  match s with
  | [] => false
  | a :: s' => match_ (deriv a r) s'
  end.

(** [search]: some substring of the text is (Python's [Pattern.search],
    JavaScript's [RegExp.prototype.test]). *)
Fixpoint search (r : regex) (s : text) : bool :=
  match_ r s ||
  match s with
  | [] => false
  | _ :: s' => search r s'
  end.

(** [compile]: the concrete syntax, for patterns made of literal
    characters, [.] and a postfix [*]. *)
Definition atom (c : ascii) : regex :=
  if Ascii.eqb c "." then Dot else Chr c.

Fixpoint compile_text (s : text) : regex :=
  match s with
  | [] => Eps
  | c :: s' =>
      match s' with
      | "*"%char :: s'' => Cat (Star (atom c)) (compile_text s'')
      | _ => Cat (atom c) (compile_text s')
      end
  end.

Definition compile (pattern : string) : regex :=
  compile_text (list_ascii_of_string pattern).

Fixpoint literal (s : text) : regex :=
  match s with
  | [] => Eps
  | c :: s' => Cat (Chr c) (literal s')
  end.

Definition contains (l s : text) : Prop := exists pre post, s = pre ++ l ++ post.
Definition ends_with (l s : text) : Prop := exists pre, s = pre ++ l.

End Re.

(** ** The automation library, as the script uses it

    Playwright and the target application are not part of the
    repository.  They are a record of operations over an abstract state
    [W]: every blocking call either returns or raises, and moves the
    state. *)

Definition handle := nat.
Definition image := list Byte.byte.

Inductive exn : Type :=
| Error (message : string)            (* playwright.sync_api.Error *)
| TimeoutError (message : string)     (* playwright.sync_api.TimeoutError *)
| AssertionError (message : string).  (* raised by expect(...) *)

Inductive result (A : Type) : Type :=
| Return (a : A)
| Raise (e : exn).
Arguments Return {A} a.
Arguments Raise {A} e.

Definition returned {A} (r : result A) : bool :=
  match r with Return _ => true | Raise _ => false end.

Definition result_map {A B} (f : A -> B) (r : result A) : result B :=
  match r with Return a => Return (f a) | Raise e => Raise e end.

Inductive locator : Type :=
| get_by_label (text : string)
| get_by_role (role name : string).

Record Library (W : Type) : Type := {
  (* sync_playwright().__enter__() and __exit__(): start and stop the driver *)
  start : W -> result unit * W;
  stop : W -> W;
  (* p.chromium.launch(headless=...), browser.new_page(), browser.close() *)
  launch : bool -> W -> result handle * W;
  new_page : handle -> W -> result handle * W;
  close : handle -> W -> result unit * W;
  (* page.goto(url), locator.fill(value), locator.click() *)
  goto : handle -> string -> W -> result unit * W;
  fill : handle -> locator -> string -> W -> result unit * W;
  click : handle -> locator -> W -> result unit * W;
  (* what expect(...) polls: the URL of a page, the visibility of an
     element, the pause between two polls and the number of polls that
     fit in the default timeout after the first one *)
  url : handle -> W -> string;
  is_visible : handle -> locator -> W -> bool;
  tick : W -> W;
  retries : nat;
  (* the pixels of page.screenshot(); the flag is full_page *)
  capture : handle -> bool -> W -> result image * W;
}.
Arguments start {W}. Arguments stop {W}. Arguments launch {W}.
Arguments new_page {W}. Arguments close {W}. Arguments goto {W}.
Arguments fill {W}. Arguments click {W}. Arguments url {W}.
Arguments is_visible {W}. Arguments tick {W}. Arguments retries {W}.
Arguments capture {W}.

(** The calls the script makes, with their arguments as written. *)
Inductive call : Type :=
| SyncPlaywrightEnter
| SyncPlaywrightExit
| Launch (headless : bool)
| NewPage (browser : handle)
| Close (browser : handle)
| Goto (page : handle) (address : string)
| Fill (page : handle) (target : locator) (value : string)
| Click (page : handle) (target : locator)
| ToHaveUrl (page : handle) (pattern : Re.regex)
| ToBeVisible (page : handle) (target : locator)
| Screenshot (page : handle) (path : string) (full_page : option bool).

Inductive value : Type :=
| VNone
| VHandle (h : handle)
| VBytes (b : image).

Definition event : Type := call * result value.

(** ** Files *)

Definition is_absolute (path : string) : bool :=
  match path with
  | String "/"%char _ => true
  | _ => false
  end.

Fixpoint ends_with_slash (s : string) : bool :=
  match s with
  | EmptyString => false
  | String c EmptyString => Ascii.eqb c "/"
  | String _ s' => ends_with_slash s'
  end.

(** A relative path names a file under the current working directory:
    the two are joined as [os.path.join] joins them, with one slash
    between them unless the directory brings its own (the root). *)
Definition resolve (cwd path : string) : string :=
  if is_absolute path then path
  else if String.eqb cwd "" || ends_with_slash cwd then cwd +:+ path
  else cwd +:+ "/" +:+ path.

(** What [os.getcwd] returns: an absolute path, with no slash at its
    end unless it is the root. *)
Definition working_directory (dir : string) : bool :=
  is_absolute dir && (String.eqb dir "/" || negb (ends_with_slash dir)).

(** [page.screenshot(path=...)] writes the bytes it returns to [path]
    before it returns; a call that raises, be it for the picture or for
    the file, is a [capture] that raises.  No other call of the script
    writes a file. *)
Definition written (cwd : string) (c : call) (r : result value)
    (files : gmap string image) : gmap string image :=
  match c, r with
  | Screenshot _ path _, Return (VBytes b) => <[resolve cwd path := b]> files
  | _, _ => files
  end.

(** ** The process: state, exceptions and the log of calls *)

Record process (W : Type) : Type := Process {
  world : W;
  cwd : string;
  files : gmap string image;
  log : list event;
}.
Arguments Process {W}. Arguments world {W}. Arguments cwd {W}.
Arguments files {W}. Arguments log {W}.

Definition boot {W} (w : W) (dir : string) (fs : gmap string image) : process W :=
  Process w dir fs [].

Definition M (W A : Type) : Type := process W -> result A * process W.

#[export] Instance script_ret {W} : MRet (M W) :=
  fun A a p => (Return a, p).

#[export] Instance script_bind {W} : MBind (M W) :=
  fun A B k m p =>
    match m p with
    | (Return a, p') => k a p'
    | (Raise e, p') => (Raise e, p')
    end.

(** A library call: run it, log it with its outcome, apply its effect
    on the files. *)
Definition invoke {W A} (c : call) (inj : A -> value)
    (op : W -> result A * W) : M W A :=
  fun p =>
    let (r, w') := op (world p) in
    let logged := result_map inj r in
    (r, Process w' (cwd p) (written (cwd p) c logged (files p))
                (log p ++ [(c, logged)])).

(** Python's [with manager as x: body]: [__exit__] runs whenever
    [__enter__] returned, and, as it returns nothing, whatever [body]
    raised is raised again. *)
Definition with_ {W A B} (enter : M W A) (exit_ : M W unit)
    (body : A -> M W B) : M W B :=
  fun p =>
    match enter p with
    | (Return x, p1) =>
        let (r, p2) := body x p1 in
        (r, snd (exit_ p2))
    | (Raise e, p1) => (Raise e, p1)
    end.

(** The exit status of the interpreter: 1 after an uncaught exception. *)
Definition exit_status {A} (r : result A) : nat :=
  match r with Return _ => 0 | Raise _ => 1 end.

(** ** The library's methods *)

Section Methods.
Context {W : Type} (L : Library W).

Definition sync_playwright_enter : M W unit :=
  invoke SyncPlaywrightEnter (fun _ => VNone) (start L).

Definition sync_playwright_exit : M W unit :=
  invoke SyncPlaywrightExit (fun _ => VNone) (fun w => (Return tt, stop L w)).

Definition chromium_launch (headless : bool) : M W handle :=
  invoke (Launch headless) VHandle (launch L headless).

Definition browser_new_page (browser : handle) : M W handle :=
  invoke (NewPage browser) VHandle (new_page L browser).

Definition browser_close (browser : handle) : M W unit :=
  invoke (Close browser) (fun _ => VNone) (close L browser).

Definition page_goto (page : handle) (address : string) : M W unit :=
  invoke (Goto page address) (fun _ => VNone) (goto L page address).

Definition locator_fill (page : handle) (target : locator) (value : string)
    : M W unit :=
  invoke (Fill page target value) (fun _ => VNone) (fill L page target value).

Definition locator_click (page : handle) (target : locator) : M W unit :=
  invoke (Click page target) (fun _ => VNone) (click L page target).

(** [expect(...)]: a polling wait.  It returns as soon as the condition
    holds and gives up when the polls of the timeout are used up. *)
Fixpoint poll (n : nat) (cond : W -> bool) (w : W) : bool * W :=
  if cond w then (true, w)
  else match n with
       | 0 => (false, w)
       | S n' => poll n' cond (tick L w)
       end.

Definition expect (cond : W -> bool) (message : string) (w : W)
    : result unit * W :=
  let (held, w') := poll (retries L) cond w in
  (if held then Return tt else Raise (AssertionError message), w').

(** A compiled pattern is tested against the URL the way JavaScript's
    [RegExp.prototype.test] does it: anywhere in the text. *)
Definition url_matches (pattern : Re.regex) (address : string) : bool :=
  Re.search pattern (list_ascii_of_string address).

Definition expect_to_have_url (page : handle) (pattern : Re.regex) : M W unit :=
  invoke (ToHaveUrl page pattern) (fun _ => VNone)
         (expect (fun w => url_matches pattern (url L page w))
                 "Page URL expected to match").

Definition expect_to_be_visible (page : handle) (target : locator) : M W unit :=
  invoke (ToBeVisible page target) (fun _ => VNone)
         (expect (is_visible L page target) "Locator expected to be visible").

(** [page.screenshot(path=..., full_page=...)]; [full_page] is false
    when the keyword is not given. *)
Definition page_screenshot (page : handle) (path : string)
    (full_page : option bool) : M W image :=
  invoke (Screenshot page path full_page) VBytes
         (capture L page (default false full_page)).

(** ** The script *)

Definition verify_profile_page (page : handle) : M W unit :=
  (* 1. Navigate to the login page. *)
  page_goto page "http://localhost:3000/admin/login";;
  (* 2. Fill in the credentials. *)
  locator_fill page (get_by_label "Email Address") "admin@gorectus.local";;
  locator_fill page (get_by_label "Password") "admin123";;
  (* 3. Click the login button. *)
  locator_click page (get_by_role "button" "Sign In");;
  (* 4. Wait for navigation to the dashboard. *)
  expect_to_have_url page (Re.compile ".*/dashboard");;
  (* 5. Click the avatar to open the profile menu. *)
  locator_click page (get_by_label "account of current user");;
  (* 6. Click the "Profile" link. *)
  locator_click page (get_by_role "menuitem" "Profile");;
  (* 7. Wait for the profile page to load. *)
  expect_to_have_url page (Re.compile ".*/profile");;
  expect_to_be_visible page (get_by_role "heading" "My Profile");;
  (* 8. Take a screenshot. *)
  page_screenshot page "jules-scratch/verification/profile_page.png" None;;
  mret tt.

Definition main : M W unit :=
  with_ sync_playwright_enter sync_playwright_exit (fun _ =>
    browser ← chromium_launch true;
    page ← browser_new_page browser;
    verify_profile_page page;;
    browser_close browser).

(** [if __name__ == "__main__": main()].  The command line and the
    environment of the process are never read. *)
Definition script (argv : list string) (environ : gmap string string)
    : M W unit :=
  main.

(** The exit status of a run of the script and the process it leaves. *)
Definition run (argv : list string) (environ : gmap string string)
    (w : W) (dir : string) (fs : gmap string image) : nat * process W :=
  let (r, p) := script argv environ (boot w dir fs) in (exit_status r, p).

(** ** Calls as data

    [reply] is what a call answers and where it leaves the library;
    [exec] is the method a logged call stands for, its value dropped. *)

Definition reply (c : call) (w : W) : result value * W :=
  let none (r : result unit * W) := (result_map (fun _ => VNone) r.1, r.2) in
  let a_handle (r : result handle * W) := (result_map VHandle r.1, r.2) in
  match c with
  | SyncPlaywrightEnter => none (start L w)
  | SyncPlaywrightExit => (Return VNone, stop L w)
  | Launch headless => a_handle (launch L headless w)
  | NewPage browser => a_handle (new_page L browser w)
  | Close browser => none (close L browser w)
  | Goto page address => none (goto L page address w)
  | Fill page target v => none (fill L page target v w)
  | Click page target => none (click L page target w)
  | ToHaveUrl page pattern =>
      none (expect (fun w => url_matches pattern (url L page w))
                   "Page URL expected to match" w)
  | ToBeVisible page target =>
      none (expect (is_visible L page target) "Locator expected to be visible" w)
  | Screenshot page path full_page =>
      let r := capture L page (default false full_page) w in
      (result_map VBytes r.1, r.2)
  end.

Definition exec (c : call) : M W unit :=
  match c with
  | SyncPlaywrightEnter => sync_playwright_enter
  | SyncPlaywrightExit => sync_playwright_exit
  | Launch headless => chromium_launch headless;; mret tt
  | NewPage browser => browser_new_page browser;; mret tt
  | Close browser => browser_close browser
  | Goto page address => page_goto page address
  | Fill page target v => locator_fill page target v
  | Click page target => locator_click page target
  | ToHaveUrl page pattern => expect_to_have_url page pattern
  | ToBeVisible page target => expect_to_be_visible page target
  | Screenshot page path full_page => page_screenshot page path full_page;; mret tt
  end.

Fixpoint sequence (cs : list call) : M W unit :=
  match cs with
  | [] => mret tt
  | c :: cs' => exec c;; sequence cs'
  end.

End Methods.

(** The page-level calls of [verify_profile_page], in program order. *)
Definition profile_steps (page : handle) : list call :=
  [ Goto page "http://localhost:3000/admin/login";
    Fill page (get_by_label "Email Address") "admin@gorectus.local";
    Fill page (get_by_label "Password") "admin123";
    Click page (get_by_role "button" "Sign In");
    ToHaveUrl page (Re.compile ".*/dashboard");
    Click page (get_by_label "account of current user");
    Click page (get_by_role "menuitem" "Profile");
    ToHaveUrl page (Re.compile ".*/profile");
    ToBeVisible page (get_by_role "heading" "My Profile");
    Screenshot page "jules-scratch/verification/profile_page.png" None ].

(** ** Reading a log *)

Definition calls (t : list event) : list call := map fst t.

Definition event_returned (ev : event) : bool := returned ev.2.

Definition is_screenshot (c : call) : bool :=
  match c with Screenshot _ _ _ => true | _ => false end.

Definition is_launch (c : call) : bool :=
  match c with Launch _ => true | _ => false end.

Definition is_new_page (c : call) : bool :=
  match c with NewPage _ => true | _ => false end.

(** The page a call addresses, for the calls made on a page. *)
Definition page_of (c : call) : option handle :=
  match c with
  | Goto page _ | Fill page _ _ | Click page _ | ToHaveUrl page _
  | ToBeVisible page _ | Screenshot page _ _ => Some page
  | _ => None
  end.

(** Whether a screenshot call asks for the full scrollable page. *)
Definition full_page_of (c : call) : option bool :=
  match c with
  | Screenshot _ _ full_page => Some (default false full_page)
  | _ => None
  end.

(** The files after the calls of a log. *)
Definition files_after (dir : string) (t : list event)
    (fs : gmap string image) : gmap string image :=
  fold_left (fun fs ev => written dir ev.1 ev.2 fs) t fs.

(** What is live after a log.  A browser lives from the [launch] that
    returned it until it is closed; a page lives as long as its browser.
    Leaving [with sync_playwright()] stops the driver, and the browsers
    it launched go with it. *)
Record resources : Type := Resources {
  driver : bool;
  browsers : list handle;
  pages : list (handle * handle);   (* a page and the browser that owns it *)
}.

Definition idle : resources := Resources false [] [].

Definition account (rs : resources) (ev : event) : resources :=
  match ev with
  | (SyncPlaywrightEnter, Return _) => Resources true (browsers rs) (pages rs)
  | (SyncPlaywrightExit, _) => Resources false [] []
  | (Launch _, Return (VHandle b)) => Resources (driver rs) (b :: browsers rs) (pages rs)
  | (NewPage b, Return (VHandle pg)) =>
      Resources (driver rs) (browsers rs) ((pg, b) :: pages rs)
  | (Close b, Return _) =>
      Resources (driver rs)
                (filter (fun b' => b' ≠ b) (browsers rs))
                (filter (fun pb => pb.2 ≠ b) (pages rs))
  | _ => rs
  end.

Definition resources_after (t : list event) : resources :=
  fold_left account t idle.

(** The path the screenshot is saved at, as the script writes it. *)
Definition screenshot_path : string :=
  "jules-scratch/verification/profile_page.png".

(** The calls that come before the screenshot in a run of the script. *)
Definition before_capture (c : call) : bool :=
  match c with
  | Screenshot _ _ _ | Close _ | SyncPlaywrightExit => false
  | _ => true
  end.

Definition on_page (c : call) : bool :=
  match page_of c with Some _ => true | None => false end.

(** ** Runs of a list of calls

    [trace_of w cs t r w']: from the library state [w], the calls [cs]
    are made one after the other, each in the state the one before left,
    until one raises; [t] is what was logged, [r] the outcome and [w']
    the state at the end. *)

Section Runs.
Context {W : Type} (L : Library W).

Inductive trace_of : W -> list call -> list event -> result unit -> W -> Prop :=
| trace_done w :
    trace_of w [] [] (Return tt) w
| trace_raise w c cs e w' :
    reply L c w = (Raise e, w') ->
    trace_of w (c :: cs) [(c, Raise e)] (Raise e) w'
| trace_next w c cs v w1 t r w' :
    reply L c w = (Return v, w1) ->
    trace_of w1 cs t r w' ->
    trace_of w (c :: cs) ((c, Return v) :: t) r w'.

(** The process after the events [t], which left the library in [w']. *)
Definition advanced (p : process W) (t : list event) (w' : W) : process W :=
  Process w' (cwd p) (files_after (cwd p) t (files p)) (log p ++ t).

(** *** Runs of the entry point

    [main_run w t r w']: the six ways through [main], by the first call
    that raises.  The exit of the [with] block is logged in all of them
    but the first, where the block was never entered. *)

Definition entered : event := (SyncPlaywrightEnter, Return VNone).
Definition exited : event := (SyncPlaywrightExit, Return VNone).
Definition launched (b : handle) : event := (Launch true, Return (VHandle b)).
Definition opened (b pg : handle) : event := (NewPage b, Return (VHandle pg)).

Inductive main_run (w : W) : list event -> result unit -> W -> Prop :=
| run_no_driver e w' :
    start L w = (Raise e, w') ->
    main_run w [(SyncPlaywrightEnter, Raise e)] (Raise e) w'
| run_no_browser w0 e w1 :
    start L w = (Return tt, w0) ->
    launch L true w0 = (Raise e, w1) ->
    main_run w [entered; (Launch true, Raise e); exited] (Raise e) (stop L w1)
| run_no_page w0 b w1 e w2 :
    start L w = (Return tt, w0) ->
    launch L true w0 = (Return b, w1) ->
    new_page L b w1 = (Raise e, w2) ->
    main_run w [entered; launched b; (NewPage b, Raise e); exited]
             (Raise e) (stop L w2)
| run_aborted w0 b w1 pg w2 t e w3 :
    start L w = (Return tt, w0) ->
    launch L true w0 = (Return b, w1) ->
    new_page L b w1 = (Return pg, w2) ->
    trace_of w2 (profile_steps pg) t (Raise e) w3 ->
    main_run w ([entered; launched b; opened b pg] ++ t ++ [exited])
             (Raise e) (stop L w3)
| run_not_closed w0 b w1 pg w2 t w3 e w4 :
    start L w = (Return tt, w0) ->
    launch L true w0 = (Return b, w1) ->
    new_page L b w1 = (Return pg, w2) ->
    trace_of w2 (profile_steps pg) t (Return tt) w3 ->
    close L b w3 = (Raise e, w4) ->
    main_run w ([entered; launched b; opened b pg] ++ t
                  ++ [(Close b, Raise e); exited])
             (Raise e) (stop L w4)
| run_completed w0 b w1 pg w2 t w3 w4 :
    start L w = (Return tt, w0) ->
    launch L true w0 = (Return b, w1) ->
    new_page L b w1 = (Return pg, w2) ->
    trace_of w2 (profile_steps pg) t (Return tt) w3 ->
    close L b w3 = (Return tt, w4) ->
    main_run w ([entered; launched b; opened b pg] ++ t
                  ++ [(Close b, Return VNone); exited])
             (Return tt) (stop L w4).

End Runs.

(** ** Two runs against an application that did not change

    [R] relates two states of the library and the application that
    answer alike: the same outcome for the same call, the same handles,
    the same URL and visibility, and related states afterwards.  The
    bytes of a screenshot may differ. *)

Section Answers.
Context {W : Type} (L : Library W) (R : W -> W -> Prop).

Definition rel_result {A} (eqv : A -> A -> Prop) (r1 r2 : result A) : Prop :=
  match r1, r2 with
  | Return a, Return b => eqv a b
  | Raise e1, Raise e2 => e1 = e2
  | _, _ => False
  end.

Definition same_answer {A} (eqv : A -> A -> Prop) (x y : result A * W) : Prop :=
  rel_result eqv x.1 y.1 /\ R x.2 y.2.

Definition any_bytes (b1 b2 : image) : Prop := True.

Record unchanged : Prop := Unchanged {
  same_start w1 w2 :
    R w1 w2 -> same_answer eq (start L w1) (start L w2);
  same_stop w1 w2 :
    R w1 w2 -> R (stop L w1) (stop L w2);
  same_launch h w1 w2 :
    R w1 w2 -> same_answer eq (launch L h w1) (launch L h w2);
  same_new_page b w1 w2 :
    R w1 w2 -> same_answer eq (new_page L b w1) (new_page L b w2);
  same_close b w1 w2 :
    R w1 w2 -> same_answer eq (close L b w1) (close L b w2);
  same_goto pg a w1 w2 :
    R w1 w2 -> same_answer eq (goto L pg a w1) (goto L pg a w2);
  same_fill pg l v w1 w2 :
    R w1 w2 -> same_answer eq (fill L pg l v w1) (fill L pg l v w2);
  same_click pg l w1 w2 :
    R w1 w2 -> same_answer eq (click L pg l w1) (click L pg l w2);
  same_url pg w1 w2 :
    R w1 w2 -> url L pg w1 = url L pg w2;
  same_visible pg l w1 w2 :
    R w1 w2 -> is_visible L pg l w1 = is_visible L pg l w2;
  same_tick w1 w2 :
    R w1 w2 -> R (tick L w1) (tick L w2);
  same_capture pg f w1 w2 :
    R w1 w2 -> same_answer any_bytes (capture L pg f w1) (capture L pg f w2);
}.

Definition same_value (v1 v2 : value) : Prop :=
  match v1, v2 with
  | VBytes _, VBytes _ => True
  | _, _ => v1 = v2
  end.

(** Two logged events are the same step with the same outcome. *)
Definition same_event (ev1 ev2 : event) : Prop :=
  ev1.1 = ev2.1 /\ rel_result same_value ev1.2 ev2.2.

Definition rel_process (p1 p2 : process W) : Prop :=
  R (world p1) (world p2) /\ Forall2 same_event (log p1) (log p2).

Definition rel_M {A} (eqv : A -> A -> Prop) (m1 m2 : M W A) : Prop :=
  forall p1 p2, rel_process p1 p2 ->
    rel_result eqv (m1 p1).1 (m2 p2).1 /\ rel_process (m1 p1).2 (m2 p2).2.

End Answers.

Arguments same_start {W L R} _. Arguments same_stop {W L R} _.
Arguments same_launch {W L R} _. Arguments same_new_page {W L R} _.
Arguments same_close {W L R} _. Arguments same_goto {W L R} _.
Arguments same_fill {W L R} _. Arguments same_click {W L R} _.
Arguments same_url {W L R} _. Arguments same_visible {W L R} _.
Arguments same_tick {W L R} _. Arguments same_capture {W L R} _.

(** ** A target application to run the script against

    A small admin panel behind the library's interface: a login form, a
    dashboard with an account menu, and a profile page.  It counts the
    visits of the login page and shows the count on every page, so that
    two screenshots of the same page may differ. *)

Module Demo.

Inductive screen : Type :=
| Blank
| LoginForm
| Dashboard
| AccountMenu
| ProfilePage.

Record site : Type := Site {
  at_screen : screen;
  email : string;
  password : string;
  visits : nat;
}.

(** How the application is set up: where a login leads, and whether the
    account menu has its Profile item. *)
Record setup : Type := Setup {
  dashboard_address : string;
  profile_item : bool;
}.

Definition standard : setup :=
  Setup "http://localhost:3000/admin/dashboard" true.

Definition fresh : site := Site Blank "" "" 0.

Definition login_address : string := "http://localhost:3000/admin/login".

Definition not_found (what : string) : exn :=
  TimeoutError ("Timeout 30000ms exceeded waiting for " +:+ what).

Definition go (address : string) (w : site) : result unit * site :=
  if String.eqb address login_address
  then (Return tt, Site LoginForm "" "" (S (visits w)))
  else (Raise (Error "net::ERR_CONNECTION_REFUSED"), w).

Definition type_into (target : locator) (v : string) (w : site)
    : result unit * site :=
  match at_screen w, target with
  | LoginForm, get_by_label label =>
      if String.eqb label "Email Address"
      then (Return tt, Site LoginForm v (password w) (visits w))
      else if String.eqb label "Password"
      then (Return tt, Site LoginForm (email w) v (visits w))
      else (Raise (not_found label), w)
  | _, get_by_label label => (Raise (not_found label), w)
  | _, get_by_role role name => (Raise (not_found name), w)
  end.

Definition press (s : setup) (target : locator) (w : site)
    : result unit * site :=
  let move scr := (Return tt, Site scr (email w) (password w) (visits w)) in
  match at_screen w, target with
  | LoginForm, get_by_role role name =>
      if String.eqb role "button" && String.eqb name "Sign In"
      then if String.eqb (email w) "admin@gorectus.local"
              && String.eqb (password w) "admin123"
           then move Dashboard
           else move LoginForm
      else (Raise (not_found name), w)
  | Dashboard, get_by_label label =>
      if String.eqb label "account of current user"
      then move AccountMenu
      else (Raise (not_found label), w)
  | AccountMenu, get_by_role role name =>
      if String.eqb role "menuitem" && String.eqb name "Profile" && profile_item s
      then move ProfilePage
      else (Raise (not_found name), w)
  | _, get_by_label label => (Raise (not_found label), w)
  | _, get_by_role role name => (Raise (not_found name), w)
  end.

Definition address_of (s : setup) (w : site) : string :=
  match at_screen w with
  | Blank => "about:blank"
  | LoginForm => login_address
  | Dashboard | AccountMenu => dashboard_address s
  | ProfilePage => "http://localhost:3000/admin/profile"
  end.

Definition shows (target : locator) (w : site) : bool :=
  match at_screen w, target with
  | ProfilePage, get_by_role role name =>
      String.eqb role "heading" && String.eqb name "My Profile"
  | _, _ => false
  end.

(** The pixels: one byte for the extent of the picture, then the visit
    counter as it is drawn on the page. *)
Definition pixels (full_page : bool) (w : site) : image :=
  (if full_page then Byte.x02 else Byte.x01) :: repeat Byte.x2a (visits w).

Definition library (s : setup) : Library site := {|
  start w := (Return tt, w);
  stop w := Site Blank "" "" (visits w);
  launch _ w := (Return 1, w);
  new_page _ w := (Return 2, w);
  close _ w := (Return tt, w);
  goto _ address w := go address w;
  fill _ target v w := type_into target v w;
  click _ target w := press s target w;
  url _ w := address_of s w;
  is_visible _ target w := shows target w;
  tick w := w;
  retries := 2;
  capture _ full_page w := (Return (pixels full_page w), w);
|}.

(** Two states of the site that differ in the visit counter only. *)
Definition same_site (w1 w2 : site) : Prop :=
  at_screen w1 = at_screen w2 /\ email w1 = email w2 /\ password w1 = password w2.

(** The working directory and the files of the examples: the output
    file is there already, from an earlier run. *)
Definition repo : string := "/repo".

Definition output_file : string :=
  "/repo/jules-scratch/verification/profile_page.png".

Definition old_picture : image := [Byte.x00].

Definition disk : gmap string image := {[ output_file := old_picture ]}.

End Demo.

(** ** Browsers that fail

    The demo application behind a driver that does not start, a browser
    that opens no page, and a browser that raises when it is closed. *)

Module Faulty.

Definition base : Library Demo.site := Demo.library Demo.standard.

Definition with_start (st : Demo.site -> result unit * Demo.site)
    : Library Demo.site := {|
  start := st;
  stop := stop base;
  launch := launch base;
  new_page := new_page base;
  close := close base;
  goto := goto base;
  fill := fill base;
  click := click base;
  url := url base;
  is_visible := is_visible base;
  tick := tick base;
  retries := retries base;
  capture := capture base;
|}.

Definition with_new_page
    (np : handle -> Demo.site -> result handle * Demo.site)
    : Library Demo.site := {|
  start := start base;
  stop := stop base;
  launch := launch base;
  new_page := np;
  close := close base;
  goto := goto base;
  fill := fill base;
  click := click base;
  url := url base;
  is_visible := is_visible base;
  tick := tick base;
  retries := retries base;
  capture := capture base;
|}.

Definition with_close (cl : handle -> Demo.site -> result unit * Demo.site)
    : Library Demo.site := {|
  start := start base;
  stop := stop base;
  launch := launch base;
  new_page := new_page base;
  close := cl;
  goto := goto base;
  fill := fill base;
  click := click base;
  url := url base;
  is_visible := is_visible base;
  tick := tick base;
  retries := retries base;
  capture := capture base;
|}.

Definition no_driver : Library Demo.site :=
  with_start (fun w => (Raise (Error "Driver failed to start"), w)).

Definition no_page : Library Demo.site :=
  with_new_page (fun _ w => (Raise (Error "Target page, context or browser has been closed"), w)).

Definition stuck_browser : Library Demo.site :=
  with_close (fun _ w => (Raise (Error "Browser.close: Connection closed"), w)).

End Faulty.

(** * Part II: lemmas and theorems *)

(** Case analysis on the answer of the library call in the goal. *)
Ltac destruct_answer :=
  match goal with
  | |- context [start ?L ?w] => destruct (start L w) as [[?|?] ?]
  | |- context [launch ?L ?h ?w] => destruct (launch L h w) as [[?|?] ?]
  | |- context [new_page ?L ?b ?w] => destruct (new_page L b w) as [[?|?] ?]
  | |- context [close ?L ?b ?w] => destruct (close L b w) as [[?|?] ?]
  | |- context [goto ?L ?pg ?a ?w] => destruct (goto L pg a w) as [[?|?] ?]
  | |- context [fill ?L ?pg ?t ?v ?w] => destruct (fill L pg t v w) as [[?|?] ?]
  | |- context [click ?L ?pg ?t ?w] => destruct (click L pg t w) as [[?|?] ?]
  | |- context [expect ?L ?c ?m ?w] => destruct (expect L c m w) as [[?|?] ?]
  | |- context [capture ?L ?pg ?f ?w] => destruct (capture L pg f w) as [[?|?] ?]
  end; simpl.

(** ** The derivative matcher is correct *)

Module ReFacts.
Import Re.

Lemma lang_void_inv s : ~ lang Void s.
Proof. intros H; inversion H. Qed.

Lemma lang_eps_inv s : lang Eps s <-> s = [].
Proof. split; [intros H; now inversion H | intros ->; constructor]. Qed.

Lemma lang_chr_inv c s : lang (Chr c) s <-> s = [c].
Proof. split; [intros H; now inversion H | intros ->; constructor]. Qed.

Lemma lang_dot_inv s :
  lang Dot s <-> exists c, s = [c] /\ line_terminator c = false.
Proof.
  split.
  - intros H; inversion H; subst; eauto.
  - intros (c & -> & Hc); now constructor.
Qed.

Lemma lang_alt_inv r1 r2 s : lang (Alt r1 r2) s <-> lang r1 s \/ lang r2 s.
Proof.
  split.
  - intros H; inversion H; subst; auto.
  - intros [H | H]; [now apply lang_alt_l | now apply lang_alt_r].
Qed.

Lemma lang_cat_inv r1 r2 s :
  lang (Cat r1 r2) s <-> exists s1 s2, s = s1 ++ s2 /\ lang r1 s1 /\ lang r2 s2.
Proof.
  split.
  - intros H; inversion H; subst; eauto.
  - intros (s1 & s2 & -> & H1 & H2); now constructor.
Qed.

Lemma lang_star_cons r a s :
  lang (Star r) (a :: s) ->
  exists s1 s2, s = s1 ++ s2 /\ lang r (a :: s1) /\ lang (Star r) s2.
Proof.
  intros H. remember (Star r) as r' eqn:Er. remember (a :: s) as t eqn:Et.
  revert s Et.
  induction H as [| | | | | | |r0 s1 s2 H1 _ H2 IH2]; intros s' Et;
    try discriminate.
  injection Er as ->. destruct s1 as [|b s1]; simpl in Et.
  - now apply IH2.
  - injection Et as -> <-. eauto.
Qed.

Lemma nullable_spec r : nullable r = true <-> lang r [].
Proof.
  induction r as [| | | |r1 IH1 r2 IH2|r1 IH1 r2 IH2|r IH]; simpl.
  - split; [discriminate | intros H; destruct (lang_void_inv _ H)].
  - split; [constructor | reflexivity].
  - rewrite lang_chr_inv. split; discriminate.
  - rewrite lang_dot_inv. split; [discriminate | intros (c & Hc & _); discriminate].
  - rewrite orb_true_iff, lang_alt_inv, IH1, IH2. reflexivity.
  - rewrite andb_true_iff, lang_cat_inv, IH1, IH2. split.
    + intros [H1 H2]. exists [], []. auto.
    + intros (s1 & s2 & E & H1 & H2). symmetry in E.
      apply app_eq_nil in E as [-> ->]. auto.
  - split; [constructor | reflexivity].
Qed.

Lemma deriv_spec a r : forall s, lang (deriv a r) s <-> lang r (a :: s).
Proof.
  induction r as [| |c| |r1 IH1 r2 IH2|r1 IH1 r2 IH2|r IH]; intros s; simpl.
  - split; intros H; destruct (lang_void_inv _ H).
  - rewrite lang_eps_inv. split; [intros H; destruct (lang_void_inv _ H) | discriminate].
  - rewrite lang_chr_inv. destruct (Ascii.eqb_spec a c) as [->|Hne].
    + rewrite lang_eps_inv. split; [now intros -> | now intros [= ->]].
    + split; [intros H; destruct (lang_void_inv _ H) | intros [= ? ?]; contradiction].
  - rewrite lang_dot_inv. destruct (line_terminator a) eqn:Ea.
    + split; [intros H; destruct (lang_void_inv _ H) |].
      intros (c & [= -> ->] & Hc). congruence.
    + rewrite lang_eps_inv. split; [intros ->; eauto | now intros (c & [= -> ->] & _)].
  - rewrite !lang_alt_inv, IH1, IH2. reflexivity.
  - assert (Hcat : lang (Cat (deriv a r1) r2) s <->
                   exists s1 s2, s = s1 ++ s2 /\ lang r1 (a :: s1) /\ lang r2 s2).
    { rewrite lang_cat_inv. split; intros (s1 & s2 & E & H1 & H2);
        exists s1, s2; (split; [exact E | split; [now apply IH1 | exact H2]]). }
    rewrite (lang_cat_inv r1 r2). destruct (nullable r1) eqn:En.
    + rewrite lang_alt_inv, Hcat, IH2. split.
      * intros [(s1 & s2 & -> & H1 & H2) | H2].
        -- exists (a :: s1), s2. auto.
        -- exists [], (a :: s). split; [reflexivity | split; [now apply nullable_spec | exact H2]].
      * intros (s1 & s2 & E & H1 & H2). destruct s1 as [|b s1]; simpl in E.
        -- right. now rewrite E.
        -- injection E as <- ->. left. eauto.
    + rewrite Hcat. split.
      * intros (s1 & s2 & -> & H1 & H2). exists (a :: s1), s2. auto.
      * intros (s1 & s2 & E & H1 & H2). destruct s1 as [|b s1]; simpl in E.
        -- apply nullable_spec in H1. congruence.
        -- injection E as <- ->. eauto.
  - rewrite lang_cat_inv. split.
    + intros (s1 & s2 & -> & H1 & H2). apply IH in H1.
      now apply (lang_star_app r (a :: s1) s2).
    + intros H. apply lang_star_cons in H as (s1 & s2 & -> & H1 & H2).
      exists s1, s2. split; [reflexivity | split; [now apply IH | exact H2]].
Qed.

Lemma fullmatch_spec s : forall r, fullmatch r s = true <-> lang r s.
Proof.
  induction s as [|a s IH]; intros r; simpl.
  - apply nullable_spec.
  - rewrite IH. apply deriv_spec.
Qed.

Lemma match_spec s :
  forall r, match_ r s = true <-> exists p q, s = p ++ q /\ lang r p.
Proof.
  induction s as [|a s IH]; intros r; simpl; rewrite orb_true_iff, nullable_spec.
  - split.
    + intros [H | H]; [exists [], []; auto | discriminate].
    + intros (p & q & E & H). symmetry in E. apply app_eq_nil in E as [-> _]. auto.
  - rewrite IH. split.
    + intros [H | (p & q & -> & H)].
      * exists [], (a :: s). auto.
      * exists (a :: p), q. split; [reflexivity | now apply deriv_spec].
    + intros (p & q & E & H). destruct p as [|b p]; simpl in E.
      * now left.
      * injection E as <- ->. right. exists p, q. split; [reflexivity | now apply deriv_spec].
Qed.

Lemma search_spec s :
  forall r, search r s = true <-> exists a p q, s = a ++ p ++ q /\ lang r p.
Proof.
  induction s as [|c s IH]; intros r; cbn [search];
    rewrite orb_true_iff, match_spec.
  - split.
    + intros [(p & q & E & H) | H]; [exists [], p, q; auto | discriminate].
    + intros (a & p & q & E & H). left. symmetry in E.
      apply app_eq_nil in E as [-> E]. eauto.
  - rewrite IH. split.
    + intros [(p & q & E & H) | (a & p & q & -> & H)].
      * exists [], p, q. auto.
      * exists (c :: a), p, q. auto.
    + intros (a & p & q & E & H). destruct a as [|b a]; simpl in E.
      * left. eauto.
      * injection E as <- ->. right. eauto.
Qed.

Lemma lang_literal l : forall s, lang (literal l) s <-> s = l.
Proof.
  induction l as [|c l IH]; intros s; simpl.
  - apply lang_eps_inv.
  - rewrite lang_cat_inv. split.
    + intros (s1 & s2 & -> & H1 & H2). apply lang_chr_inv in H1 as ->.
      apply IH in H2 as ->. reflexivity.
    + intros ->. exists [c], l. split; [reflexivity | split; [constructor | now apply IH]].
Qed.

Lemma lang_star_dot s :
  lang (Star Dot) s <-> Forall (fun c => line_terminator c = false) s.
Proof.
  split.
  - induction s as [|a s IH]; intros H; [constructor |].
    apply lang_star_cons in H as (s1 & s2 & -> & H1 & H2).
    apply lang_dot_inv in H1 as (c & [= -> ->] & Hc). constructor; auto.
  - induction 1 as [|a s Ha _ IH]; [constructor |].
    apply (lang_star_app Dot [a] s); [now constructor | exact IH].
Qed.

(** A pattern [.*l] with a literal [l], searched for: the texts that
    contain [l]. *)
Lemma search_dotstar_literal l s :
  search (Cat (Star Dot) (literal l)) s = true <-> contains l s.
Proof.
  rewrite search_spec. split.
  - intros (a & p & q & -> & H). apply lang_cat_inv in H as (d & t & -> & _ & Ht).
    apply lang_literal in Ht as ->. exists (a ++ d), q. now rewrite <- !app_assoc.
  - intros (pre & post & ->). exists pre, l, post. split; [reflexivity |].
    apply (lang_cat (Star Dot) (literal l) [] l); [constructor | now apply lang_literal].
Qed.

(** The same pattern anchored at the start only (Python's [match]): the
    literal may be followed by anything, and preceded by one line. *)
Lemma match_dotstar_literal l s :
  match_ (Cat (Star Dot) (literal l)) s = true <->
  exists pre post, s = pre ++ l ++ post /\
                   Forall (fun c => line_terminator c = false) pre.
Proof.
  rewrite match_spec. split.
  - intros (p & q & -> & H). apply lang_cat_inv in H as (d & t & -> & Hd & Ht).
    apply lang_literal in Ht as ->. apply lang_star_dot in Hd.
    exists d, q. now rewrite <- app_assoc.
  - intros (pre & post & -> & Hpre). exists (pre ++ l), post.
    split; [now rewrite <- app_assoc |].
    apply lang_cat; [now apply lang_star_dot | now apply lang_literal].
Qed.

(** Anchored at both ends ([fullmatch]): the texts that end with [l]. *)
Lemma fullmatch_dotstar_literal l s :
  fullmatch (Cat (Star Dot) (literal l)) s = true <->
  exists pre, s = pre ++ l /\ Forall (fun c => line_terminator c = false) pre.
Proof.
  rewrite fullmatch_spec, lang_cat_inv. split.
  - intros (d & t & -> & Hd & Ht). apply lang_literal in Ht as ->.
    apply lang_star_dot in Hd. eauto.
  - intros (pre & -> & Hpre). exists pre, l.
    split; [reflexivity | split; [now apply lang_star_dot | now apply lang_literal]].
Qed.

End ReFacts.

(** ** Runs of the script *)

Section Traces.
Context {W : Type} (L : Library W).

#[local] Abbreviation trace_of := (trace_of L).
#[local] Abbreviation main_run := (main_run L).

Lemma exec_unfold c p :
  exec L c p =
  (result_map (fun _ => tt) (reply L c (world p)).1,
   advanced p [(c, (reply L c (world p)).1)] (reply L c (world p)).2).
Proof.
  destruct c; unfold exec, advanced, files_after; simpl;
    unfold sync_playwright_enter, sync_playwright_exit, chromium_launch,
      browser_new_page, browser_close, page_goto, locator_fill, locator_click,
      expect_to_have_url, expect_to_be_visible, page_screenshot,
      mbind, script_bind, mret, script_ret, invoke; simpl;
    try reflexivity; destruct_answer;
    try match goal with u : unit |- _ => destruct u end; reflexivity.
Qed.

Lemma advanced_nil (p : process W) : advanced p [] (world p) = p.
Proof. destruct p; unfold advanced; simpl. now rewrite app_nil_r. Qed.

Lemma advanced_app (p : process W) t1 w1 t2 w2 :
  advanced (advanced p t1 w1) t2 w2 = advanced p (t1 ++ t2) w2.
Proof.
  unfold advanced, files_after; simpl. now rewrite fold_left_app, app_assoc.
Qed.

(** [sequence] computes the run of its calls. *)
Lemma sequence_trace cs : forall p,
  exists t w',
    trace_of (world p) cs t (sequence L cs p).1 w' /\
    (sequence L cs p).2 = advanced p t w'.
Proof.
  induction cs as [|c cs IH]; intros p.
  - exists [], (world p). simpl. split; [constructor | now rewrite advanced_nil].
  - cbn [sequence]. unfold mbind, script_bind. rewrite exec_unfold.
    destruct (reply L c (world p)) as [[v|e] w1] eqn:Er; simpl.
    + destruct (IH (advanced p [(c, Return v)] w1)) as (t & w' & Ht & Hp).
      exists ((c, Return v) :: t), w'. split.
      * now apply trace_next with w1.
      * rewrite Hp. now rewrite advanced_app.
    + exists [(c, Raise e)], w1. split; [now constructor | reflexivity].
Qed.

(** [verify_profile_page] is the sequence of its ten calls. *)
Lemma verify_profile_page_sequence page p :
  verify_profile_page L page p = sequence L (profile_steps page) p.
Proof.
  unfold verify_profile_page, profile_steps, sequence, exec.
  change (Re.compile ".*/dashboard")
    with (Re.Cat (Re.Star Re.Dot) (Re.literal (list_ascii_of_string "/dashboard"))).
  change (Re.compile ".*/profile")
    with (Re.Cat (Re.Star Re.Dot) (Re.literal (list_ascii_of_string "/profile"))).
  unfold page_goto, locator_fill, locator_click, expect_to_have_url,
    expect_to_be_visible, page_screenshot, mbind, script_bind, mret,
    script_ret, invoke; simpl.
  repeat (destruct_answer; [| reflexivity]).
  reflexivity.
Qed.

Lemma verify_profile_page_trace page p :
  exists t w',
    trace_of (world p) (profile_steps page) t
             (verify_profile_page L page p).1 w' /\
    (verify_profile_page L page p).2 = advanced p t w'.
Proof. rewrite verify_profile_page_sequence. apply sequence_trace. Qed.

(** *** What a run looks like *)

Lemma trace_of_prefix w cs t r w' :
  trace_of w cs t r w' -> calls t `prefix_of` cs.
Proof.
  induction 1 as [w|w c cs e w' _|w c cs v w1 t r w' _ _ IH]; simpl.
  - apply prefix_nil.
  - apply prefix_cons, prefix_nil.
  - now apply prefix_cons.
Qed.

Lemma trace_of_return w cs t u w' :
  trace_of w cs t (Return u) w' ->
  calls t = cs /\ Forall (fun ev => event_returned ev = true) t.
Proof.
  intros H. remember (Return u) as r eqn:Er.
  induction H as [w|w c cs e w' _|w c cs v w1 t r w' _ _ IH]; simpl.
  - split; [reflexivity | constructor].
  - discriminate.
  - destruct (IH Er) as [-> Hall]. split; [reflexivity | now constructor].
Qed.

Lemma trace_of_raise w cs t e w' :
  trace_of w cs t (Raise e) w' ->
  exists t1 c, t = t1 ++ [(c, Raise e)] /\
               Forall (fun ev => event_returned ev = true) t1.
Proof.
  intros H. remember (Raise e) as r eqn:Er.
  induction H as [w|w c cs e' w' _|w c cs v w1 t r w' _ _ IH]; simpl.
  - discriminate.
  - injection Er as ->. exists [], c. split; [reflexivity | constructor].
  - destruct (IH Er) as (t1 & c' & -> & Hall).
    exists ((c, Return v) :: t1), c'. split; [reflexivity | now constructor].
Qed.

(** A call that raised is the last one of its run, and the run raises
    what it raised. *)
Lemma trace_of_raised_last w cs t r w' :
  trace_of w cs t r w' ->
  forall t1 c e t2, t = t1 ++ (c, Raise e) :: t2 -> t2 = [] /\ r = Raise e.
Proof.
  induction 1 as [w|w c0 cs e0 w' _|w c0 cs v w1 t r w' _ _ IH];
    intros t1 c e t2 E.
  - now destruct t1.
  - destruct t1 as [|ev [|ev' t1]]; simplify_eq/=. auto.
  - destruct t1 as [|ev t1]; simplify_eq/=. eauto.
Qed.

Lemma trace_of_in_raise w cs t r w' c e :
  trace_of w cs t r w' -> In (c, Raise e) t -> r = Raise e.
Proof.
  intros H Hin. apply in_split in Hin as (t1 & t2 & ->).
  now destruct (trace_of_raised_last _ _ _ _ _ H _ _ _ _ eq_refl).
Qed.

Lemma trace_of_all_returned w cs t r w' :
  trace_of w cs t r w' ->
  Forall (fun ev => event_returned ev = true) t -> r = Return tt.
Proof.
  induction 1 as [w|w c cs e w' _|w c cs v w1 t r w' _ _ IH]; intros Hall.
  - reflexivity.
  - apply Forall_inv in Hall. discriminate.
  - apply IH. now apply Forall_inv_tail in Hall.
Qed.

(** Each logged event is the answer of the library to the call, in the
    state the events before it led to. *)
Lemma trace_of_answers w cs t r w' :
  trace_of w cs t r w' ->
  forall t1 c a t2, t = t1 ++ (c, a) :: t2 ->
    exists w1 w2, trace_of w (calls t1) t1 (Return tt) w1 /\
                  reply L c w1 = (a, w2).
Proof.
  induction 1 as [w|w c0 cs e0 w' Hr|w c0 cs v w1 t r w' Hr _ IH];
    intros t1 c a t2 E.
  - now destruct t1.
  - destruct t1 as [|ev [|ev' t1]]; simplify_eq/=.
    exists w, w'. split; [constructor | exact Hr].
  - destruct t1 as [|ev t1]; simplify_eq/=.
    + exists w, w1. split; [constructor | exact Hr].
    + destruct (IH _ _ _ _ eq_refl) as (wa & wb & Ht & Ha).
      exists wa, wb. split; [now apply trace_next with w1 | exact Ha].
Qed.

Lemma invoke_unfold {A} c (inj : A -> value) op (p : process W) :
  invoke c inj op p =
  ((op (world p)).1,
   advanced p [(c, result_map inj (op (world p)).1)] (op (world p)).2).
Proof. unfold invoke. now destruct (op (world p)). Qed.

Lemma world_advanced (p : process W) t w : world (advanced p t w) = w.
Proof. reflexivity. Qed.

Lemma main_spec p :
  exists t w', main_run (world p) t (main L p).1 w' /\
               (main L p).2 = advanced p t w'.
Proof.
  unfold main, with_, sync_playwright_enter, sync_playwright_exit, mbind,
    script_bind, chromium_launch, browser_new_page, browser_close.
  rewrite invoke_unfold.
  destruct (start L (world p)) as [[[]|e] w0] eqn:Es; cbn [fst snd result_map].
  2: { eexists _, _. split; [eapply run_no_driver; eassumption | reflexivity]. }
  rewrite invoke_unfold, world_advanced.
  destruct (launch L true w0) as [[b|e] w1] eqn:El; cbn [fst snd result_map].
  2: { rewrite invoke_unfold, world_advanced. cbn [fst snd result_map].
       rewrite !advanced_app. eexists _, _.
       split; [eapply run_no_browser; eassumption | reflexivity]. }
  rewrite invoke_unfold, world_advanced.
  destruct (new_page L b w1) as [[pg|e] w2] eqn:En; cbn [fst snd result_map].
  2: { rewrite invoke_unfold, world_advanced. cbn [fst snd result_map].
       rewrite !advanced_app. eexists _, _.
       split; [eapply run_no_page; eassumption | reflexivity]. }
  rewrite !advanced_app.
  match goal with
  | |- context [verify_profile_page L pg ?q] =>
      destruct (verify_profile_page_trace pg q) as (t & w3 & Ht & Hq);
      destruct (verify_profile_page L pg q) as [[[]|e] q'] eqn:Ev
  end; cbn [fst snd] in Ht, Hq; rewrite world_advanced in Ht; subst q'.
  - rewrite invoke_unfold, world_advanced.
    destruct (close L b w3) as [[[]|e] w4] eqn:Ec;
      cbn [fst snd result_map]; rewrite invoke_unfold, world_advanced;
      cbn [fst snd result_map]; rewrite !advanced_app;
      eexists _, _; (split; [| reflexivity]).
    + eapply run_completed; eassumption.
    + eapply run_not_closed; eassumption.
  - cbn [fst snd result_map]. rewrite invoke_unfold, world_advanced.
    cbn [fst snd result_map]. rewrite !advanced_app.
    eexists _, _; (split; [| reflexivity]).
    eapply run_aborted; eassumption.
Qed.

End Traces.

(** ** Facts about the steps of the script *)

Section Steps.
Context {W : Type} (L : Library W).


Lemma trace_of_cons_inv w c cs t r w' :
  trace_of L w (c :: cs) t r w' ->
  (exists e, reply L c w = (Raise e, w') /\ t = [(c, Raise e)] /\ r = Raise e) \/
  (exists v w1 t', reply L c w = (Return v, w1) /\ trace_of L w1 cs t' r w' /\
                   t = (c, Return v) :: t').
Proof.
  intros H. remember (c :: cs) as l eqn:El.
  destruct H as [w|w c0 cs0 e w' Hr|w c0 cs0 v w1 t r w' Hr H].
  - discriminate.
  - injection El as -> ->. left. eauto.
  - injection El as -> ->. right. eauto 6.
Qed.

Lemma trace_of_nil_inv w t r w' :
  trace_of L w [] t r w' -> t = [] /\ r = Return tt /\ w' = w.
Proof. intros H. now inversion H. Qed.

(** Stepping through a run of a list of calls that is known. *)
Ltac next_call H :=
  let e := fresh "e" in
  let v := fresh "v" in
  let w1 := fresh "w" in
  let t' := fresh "t" in
  let Hr := fresh "Hreply" in
  apply trace_of_cons_inv in H as [(e & Hr & -> & ->)|(v & w1 & t' & Hr & H & ->)].

Lemma steps_on_page w pg t r w' :
  trace_of L w (profile_steps pg) t r w' ->
  Forall (fun ev => page_of ev.1 = Some pg) t.
Proof.
  intros H. apply trace_of_prefix in H as [k Hk].
  apply Forall_forall. intros [c a] Hin.
  assert (Hc : In c (profile_steps pg)).
  { rewrite Hk. apply in_or_app. left. unfold calls.
    apply in_map_iff. exists (c, a).
    split; [reflexivity | now apply list_elem_of_In]. }
  simpl in Hc. simpl. intuition (subst; reflexivity).
Qed.

Lemma files_after_app dir t1 t2 fs :
  files_after dir (t1 ++ t2) fs = files_after dir t2 (files_after dir t1 fs).
Proof. unfold files_after. apply fold_left_app. Qed.

Lemma files_after_untouched dir t fs :
  Forall (fun ev => is_screenshot ev.1 = true -> event_returned ev = false) t ->
  files_after dir t fs = fs.
Proof.
  induction 1 as [|[c a] t Hev _ IH]; [reflexivity |].
  unfold files_after in *. simpl. rewrite <- IH at 2. f_equal.
  destruct c; try reflexivity. destruct a as [v|e]; [| reflexivity].
  simpl in Hev. now specialize (Hev eq_refl).
Qed.

(** The two shapes of a run of the ten steps: all of them, the last one
    being the screenshot of the viewport, or a run cut short by a call
    that raised, in which no screenshot returned. *)
Lemma steps_shape w pg t r w' :
  trace_of L w (profile_steps pg) t r w' ->
  (exists t1 b wb,
      r = Return tt /\
      t = t1 ++ [(Screenshot pg screenshot_path None, Return (VBytes b))] /\
      Forall (fun ev => is_screenshot ev.1 = false) t1 /\
      capture L pg false wb = (Return b, w')) \/
  (exists e,
      r = Raise e /\
      Forall (fun ev => is_screenshot ev.1 = true -> event_returned ev = false) t).
Proof.
  intros H. unfold profile_steps in H.
  do 10 (next_call H;
         [right; eexists; split; [reflexivity |];
          repeat constructor; simpl; intros; discriminate |]).
  apply trace_of_nil_inv in H as (-> & -> & ->). left.
  match goal with
  | Hr : reply L (Screenshot _ _ _) ?w1 = _ |- _ =>
      simpl in Hr; destruct (capture L pg false w1) as [[b|e] wb'] eqn:Ec;
      simplify_eq/=
  end.
  eexists [_; _; _; _; _; _; _; _; _], b, _.
  split; [reflexivity |]. split; [reflexivity |]. split; [| exact Ec].
  repeat constructor.
Qed.

End Steps.

Lemma string_length_append (s1 s2 : string) :
  String.length (s1 +:+ s2) = String.length s1 + String.length s2.
Proof. induction s1 as [|a s1 IH]; simpl; [reflexivity | now rewrite IH]. Qed.

Lemma string_append_cancel_r (s1 s2 t : string) : s1 +:+ t = s2 +:+ t -> s1 = s2.
Proof.
  revert s2. induction s1 as [|a s1 IH]; intros [|b s2] E; simpl in E.
  - reflexivity.
  - apply (f_equal String.length) in E.
    rewrite ?string_length_append in E. simpl in E.
    rewrite ?string_length_append in E. lia.
  - apply (f_equal String.length) in E.
    rewrite ?string_length_append in E. simpl in E.
    rewrite ?string_length_append in E. lia.
  - injection E as -> E. f_equal. now apply IH.
Qed.

(** The six ways through [main], one goal each. *)
Ltac main_cases H :=
  destruct H as [e0 w1 Hs|w0 e0 w1 Hs Hl|w0 b w1 e0 w2 Hs Hl Hn
                |w0 b w1 pg w2 t e0 w3 Hs Hl Hn Ht
                |w0 b w1 pg w2 t w3 e0 w4 Hs Hl Hn Ht Hc
                |w0 b w1 pg w2 t w3 w4 Hs Hl Hn Ht Hc].

(** ** Properties of the script *)

Section Properties.
Context {W : Type} (L : Library W).

(** *** The calls that are made

    What the script calls follows from how the library answers, not from
    what is found in the log: the first call of a run of calls is always
    made, and the next one whenever it returned. *)

Lemma trace_of_head w c cs t r w' :
  trace_of L w (c :: cs) t r w' ->
  t !! 0 = Some (c, (reply L c w).1) /\
  (returned (reply L c w).1 = true ->
   exists t', t = (c, (reply L c w).1) :: t' /\
              trace_of L (reply L c w).2 cs t' r w').
Proof.
  intros H.
  apply trace_of_cons_inv in H as [(e & Hr & -> & ->)|(v & w1 & t' & Hr & H & ->)];
    rewrite Hr; simpl.
  - split; [reflexivity | discriminate].
  - split; [reflexivity |]. intros _. now exists t'.
Qed.

Lemma main_run_first w t r w' :
  main_run L w t r w' ->
  t !! 0 = Some (SyncPlaywrightEnter, (reply L SyncPlaywrightEnter w).1).
Proof.
  intros Hrun. main_cases Hrun; simpl; rewrite Hs; reflexivity.
Qed.

Lemma main_run_started w t r w' v0 :
  main_run L w t r w' -> start L w = (Return tt, v0) ->
  exists rest,
    t = entered :: (Launch true, (reply L (Launch true) v0).1) :: rest.
Proof.
  intros Hrun H0. main_cases Hrun; rewrite H0 in Hs; simplify_eq;
    simpl; rewrite Hl; simpl; eauto.
Qed.

Lemma main_run_launched w t r w' v0 br v1 :
  main_run L w t r w' ->
  start L w = (Return tt, v0) -> launch L true v0 = (Return br, v1) ->
  exists rest,
    t = entered :: launched br :: (NewPage br, (reply L (NewPage br) v1).1) :: rest.
Proof.
  intros Hrun H0 H1. main_cases Hrun; rewrite H0 in Hs; simplify_eq;
    rewrite H1 in Hl; simplify_eq; simpl; rewrite Hn; simpl; eauto.
Qed.

Lemma main_run_opened w t r w' v0 br v1 page v2 :
  main_run L w t r w' ->
  start L w = (Return tt, v0) -> launch L true v0 = (Return br, v1) ->
  new_page L br v1 = (Return page, v2) ->
  exists ts r' v3 tail,
    t = [entered; launched br; opened br page] ++ ts ++ tail /\
    trace_of L v2 (profile_steps page) ts r' v3 /\
    (tail = [exited] \/ exists a, tail = [(Close br, a); exited]).
Proof.
  intros Hrun H0 H1 H2. main_cases Hrun; rewrite H0 in Hs; simplify_eq;
    rewrite H1 in Hl; simplify_eq; rewrite H2 in Hn; simplify_eq;
    eexists _, _, _, _; (split; [reflexivity |]); (split; [exact Ht |]); eauto.
Qed.


Lemma in_raised_split (t1 t2 : list event) c e :
  Forall (fun ev => event_returned ev = true) t1 ->
  In (c, Raise e) (t1 ++ t2) -> In (c, Raise e) t2.
Proof.
  intros Hall Hin. apply in_app_or in Hin as [Hin | Hin]; [| exact Hin].
  rewrite Forall_forall in Hall. apply list_elem_of_In, Hall in Hin.
  discriminate.
Qed.

(** C4: [verify_profile_page] makes its calls in the one fixed order of
    [profile_steps]: go to the login page, fill the email, fill the
    password, click Sign In, await the dashboard URL, open the account
    menu, click the Profile item, await the profile URL, then the
    heading, take the screenshot.  What it logs is a run [t] of that
    list: a prefix of it, each call answered in the state the call
    before left, so started after that one completed; a call that
    raised is the last one made, and its error is the outcome; the
    function returns exactly when all ten calls were made and
    returned. *)
Theorem verify_profile_page_in_order (page : handle) (p : process W) :
  exists t w',
    (verify_profile_page L page p).2 = advanced p t w' /\
    trace_of L (world p) (profile_steps page) t (verify_profile_page L page p).1 w' /\
    calls t `prefix_of` profile_steps page /\
    length (profile_steps page) = 10 /\
    ((verify_profile_page L page p).1 = Return tt <->
       calls t = profile_steps page /\
       Forall (fun ev => event_returned ev = true) t) /\
    (forall t1 c e t2, t = t1 ++ (c, Raise e) :: t2 ->
       t2 = [] /\ (verify_profile_page L page p).1 = Raise e) /\
    (forall t1 c a t2, t = t1 ++ (c, a) :: t2 ->
       exists w1 w2, trace_of L (world p) (calls t1) t1 (Return tt) w1 /\
                     reply L c w1 = (a, w2)).
Proof.
  destruct (verify_profile_page_trace L page p) as (t & w' & Ht & Hp).
  exists t, w'. split; [exact Hp |]. split; [exact Ht |].
  split; [now apply trace_of_prefix in Ht |]. split; [reflexivity |].
  split; [| split].
  - split.
    + intros Hr. rewrite Hr in Ht. now apply trace_of_return in Ht.
    + intros [_ Hall]. now apply (trace_of_all_returned L _ _ _ _ _ Ht).
  - intros t1 c e t2 E. now apply (trace_of_raised_last L _ _ _ _ _ Ht t1 c e t2).
  - intros t1 c a t2 E. now apply (trace_of_answers L _ _ _ _ _ Ht t1 c a t2).
Qed.

(** The log of a run of [main], and its outcome, tell each other. *)
Lemma main_run_raised w t r w' c e :
  main_run L w t r w' -> In (c, Raise e) t -> r = Raise e.
Proof.
  intros Hrun Hin.
  destruct Hrun as [e0 w1 _|w0 e0 w1 _ _|w0 b w1 e0 w2 _ _ _
                   |w0 b w1 pg w2 t e0 w3 _ _ _ Ht
                   |w0 b w1 pg w2 t w3 e0 w4 _ _ _ Ht _
                   |w0 b w1 pg w2 t w3 w4 _ _ _ Ht _].
  - destruct Hin as [[= _ ->]|[]]. reflexivity.
  - simpl in Hin. destruct Hin as [[=]|[[= _ ->]|[[=]|[]]]]. reflexivity.
  - simpl in Hin. destruct Hin as [[=]|[[=]|[[= _ ->]|[[=]|[]]]]]. reflexivity.
  - simpl in Hin. destruct Hin as [[=]|[[=]|[[=]|Hin]]].
    apply in_app_or in Hin as [Hin|[[=]|[]]].
    exact (trace_of_in_raise L _ _ _ _ _ _ _ Ht Hin).
  - simpl in Hin. destruct Hin as [[=]|[[=]|[[=]|Hin]]].
    apply in_app_or in Hin as [Hin|[[= _ ->]|[[=]|[]]]]; [| reflexivity].
    now apply (trace_of_in_raise L _ _ _ _ _ _ _ Ht) in Hin.
  - simpl in Hin. destruct Hin as [[=]|[[=]|[[=]|Hin]]].
    apply in_app_or in Hin as [Hin|[[=]|[[=]|[]]]].
    now apply (trace_of_in_raise L _ _ _ _ _ _ _ Ht) in Hin.
Qed.

Lemma main_run_raise w t e w' :
  main_run L w t (Raise e) w' -> exists c, In (c, Raise e) t.
Proof.
  intros Hrun. remember (Raise e) as r eqn:Er.
  destruct Hrun as [e0 w1 _|w0 e0 w1 _ _|w0 b w1 e0 w2 _ _ _
                   |w0 b w1 pg w2 t e0 w3 _ _ _ Ht
                   |w0 b w1 pg w2 t w3 e0 w4 _ _ _ Ht _
                   |w0 b w1 pg w2 t w3 w4 _ _ _ Ht _];
    try injection Er as ->; try discriminate.
  - eexists. now left.
  - eexists. right. now left.
  - eexists. right. right. now left.
  - apply trace_of_raise in Ht as (t1 & c & -> & _). exists c.
    simpl. do 3 right. apply in_or_app. left. apply in_or_app. right. now left.
  - eexists. simpl. do 3 right. apply in_or_app. right. now left.
Qed.

Lemma main_run_returned w t r w' :
  main_run L w t r w' ->
  (r = Return tt <-> Forall (fun ev => event_returned ev = true) t).
Proof.
  intros Hrun. split.
  - intros ->. inversion Hrun as [| | | | |w0 b w1 pg w2 t0 w3 w4 _ _ _ Ht _]; subst.
    apply trace_of_return in Ht as [_ Hall].
    repeat (apply Forall_cons; split; [reflexivity |]).
    apply Forall_app. split; [exact Hall |]. now repeat constructor.
  - intros Hall. destruct r as [[]|e]; [reflexivity | exfalso].
    apply main_run_raise in Hrun as [c Hin].
    rewrite Forall_forall in Hall. apply list_elem_of_In, Hall in Hin.
    discriminate.
Qed.

(** [main] returns exactly when its fifteen calls were made and returned. *)
Lemma main_run_all_calls w t r w' :
  main_run L w t r w' ->
  (r = Return tt <->
   exists br page,
     calls t = [SyncPlaywrightEnter; Launch true; NewPage br]
                 ++ profile_steps page ++ [Close br; SyncPlaywrightExit] /\
     Forall (fun ev => event_returned ev = true) t).
Proof.
  intros Hrun. split.
  - intros ->.
    pose proof (proj1 (main_run_returned _ _ _ _ Hrun) eq_refl) as Hall.
    inversion Hrun as [| | | | |w0 b w1 pg w2 t0 w3 w4 Hs Hl Hn Ht Hc]; subst.
    destruct (trace_of_return L _ _ _ _ _ Ht) as [Hcalls _].
    exists b, pg. split; [| exact Hall].
    rewrite <- Hcalls. unfold calls. rewrite !map_app. reflexivity.
  - intros (br & page & _ & Hall). now apply (main_run_returned _ _ _ _ Hrun).
Qed.


(** *** Resources *)

Lemma main_run_exit w t r w' :
  main_run L w t r w' ->
  (exists e, t = [(SyncPlaywrightEnter, Raise e)] /\ r = Raise e) \/
  (exists t0, t = entered :: t0 ++ [exited]).
Proof.
  intros Hrun.
  destruct Hrun as [e0 w1 _|w0 e0 w1 _ _|w0 b w1 e0 w2 _ _ _
                   |w0 b w1 pg w2 t e0 w3 _ _ _ Ht
                   |w0 b w1 pg w2 t w3 e0 w4 _ _ _ Ht _
                   |w0 b w1 pg w2 t w3 w4 _ _ _ Ht _].
  - left. eauto.
  - right. now exists [(Launch true, Raise e0)].
  - right. now exists [launched b; (NewPage b, Raise e0)].
  - right. exists ([launched b; opened b pg] ++ t). reflexivity.
  - right. exists ([launched b; opened b pg] ++ t ++ [(Close b, Raise e0)]).
    simpl. now rewrite <- ?app_assoc.
  - right. exists ([launched b; opened b pg] ++ t ++ [(Close b, Return VNone)]).
    simpl. now rewrite <- ?app_assoc.
Qed.

Lemma resources_after_snoc t ev :
  resources_after (t ++ [ev]) = account (resources_after t) ev.
Proof. unfold resources_after. now rewrite fold_left_app. Qed.

Lemma resources_after_app t1 t2 :
  resources_after (t1 ++ t2) = fold_left account t2 (resources_after t1).
Proof. unfold resources_after. now rewrite fold_left_app. Qed.

(** There are never more browsers live than [launch] was called, nor
    more pages than [new_page] was. *)
Lemma live_bound t : forall rs,
  length (browsers (fold_left account t rs))
    <= length (browsers rs) + length (List.filter is_launch (calls t)) /\
  length (pages (fold_left account t rs))
    <= length (pages rs) + length (List.filter is_new_page (calls t)).
Proof.
  induction t as [|[c a] t IH]; intros rs; simpl; [lia |].
  specialize (IH (account rs (c, a))).
  assert (Hb := length_filter (fun b' => b' ≠ 0) (browsers rs)).
  destruct c; simpl in *;
    try (destruct a as [[]|]; simpl in *; lia);
    try lia.
  destruct a as [v|e]; simpl in *; [| lia].
  pose proof (length_filter (fun b' => b' ≠ browser) (browsers rs)).
  pose proof (length_filter (fun pb : handle * handle => pb.2 ≠ browser) (pages rs)).
  lia.
Qed.

Lemma on_page_not_harness pg (t : list event) :
  Forall (fun ev => page_of ev.1 = Some pg) t ->
  List.filter is_launch (calls t) = [] /\
  List.filter is_new_page (calls t) = [] /\
  (forall b a, ~ In (Close b, a) t) /\
  (forall a, ~ In (SyncPlaywrightExit, a) t) /\
  (forall h a, ~ In (Launch h, a) t).
Proof.
  intros Hall. repeat split.
  - induction Hall as [|[c a] t Hc _ IH]; [reflexivity |].
    simpl. destruct c; try discriminate; exact IH.
  - induction Hall as [|[c a] t Hc _ IH]; [reflexivity |].
    simpl. destruct c; try discriminate; exact IH.
  - intros b a Hin. rewrite Forall_forall in Hall.
    apply list_elem_of_In, Hall in Hin. discriminate.
  - intros a Hin. rewrite Forall_forall in Hall.
    apply list_elem_of_In, Hall in Hin. discriminate.
  - intros h a Hin. rewrite Forall_forall in Hall.
    apply list_elem_of_In, Hall in Hin. discriminate.
Qed.

Lemma calls_app (t1 t2 : list event) : calls (t1 ++ t2) = calls t1 ++ calls t2.
Proof. unfold calls. apply map_app. Qed.

(** How often [main] launches a browser and opens a page. *)
Lemma main_run_counts w t r w' :
  main_run L w t r w' ->
  length (List.filter is_launch (calls t)) <= 1 /\
  length (List.filter is_new_page (calls t)) <= 1 /\
  (In entered t -> List.filter is_launch (calls t) = [Launch true]) /\
  (forall b, In (launched b) t -> List.filter is_new_page (calls t) = [NewPage b]).
Proof.
  intros Hrun.
  destruct Hrun as [e0 w1 _|w0 e0 w1 _ _|w0 b w1 e0 w2 _ _ _
                   |w0 b w1 pg w2 t e0 w3 _ _ _ Ht
                   |w0 b w1 pg w2 t w3 e0 w4 _ _ _ Ht _
                   |w0 b w1 pg w2 t w3 w4 _ _ _ Ht _];
    try (apply steps_on_page in Ht;
         pose proof (on_page_not_harness _ _ Ht) as (Hl & Hn & _ & _ & Hnl);
         rewrite !calls_app, !List.filter_app, Hl, Hn; simpl).
  - simpl. repeat split; try lia.
    + intros [[=]|[]].
    + intros b [[=]|[]].
  - simpl. repeat split; try lia. intros b [[=]|[[=]|[[=]|[]]]].
  - simpl. repeat split; try lia.
    intros b' [[=]|[[= ->]|[[=]|[[=]|[]]]]]. reflexivity.
  - repeat split; try lia. intros b' [[=]|[[= ->]|[[=]|Hin]]]; [reflexivity |].
    apply in_app_or in Hin as [Hin|[[=]|[]]]. now apply Hnl in Hin.
  - repeat split; try lia. intros b' [[=]|[[= ->]|[[=]|Hin]]]; [reflexivity |].
    apply in_app_or in Hin as [Hin|[[=]|[[=]|[]]]]. now apply Hnl in Hin.
  - repeat split; try lia. intros b' [[=]|[[= ->]|[[=]|Hin]]]; [reflexivity |].
    apply in_app_or in Hin as [Hin|[[=]|[[=]|[]]]]. now apply Hnl in Hin.
Qed.

Lemma in_calls c (t : list event) : In c (calls t) <-> exists a, In (c, a) t.
Proof.
  unfold calls. rewrite in_map_iff. split.
  - intros ([c' a] & <- & Hin). now exists a.
  - intros (a & Hin). now exists (c, a).
Qed.

(** The page of every call on a page is the one [new_page] returned. *)
Lemma main_run_pages w t r w' :
  main_run L w t r w' ->
  (forall c, In c (calls t) -> page_of c = None) \/
  (exists b pg, In (launched b) t /\ In (opened b pg) t /\
                forall c pg', In c (calls t) -> page_of c = Some pg' -> pg' = pg).
Proof.
  intros Hrun.
  destruct Hrun as [e0 w1 _|w0 e0 w1 _ _|w0 b w1 e0 w2 _ _ _
                   |w0 b w1 pg w2 t e0 w3 _ _ _ Ht
                   |w0 b w1 pg w2 t w3 e0 w4 _ _ _ Ht _
                   |w0 b w1 pg w2 t w3 w4 _ _ _ Ht _];
    [left; simpl; intros c Hin; intuition (subst; reflexivity) ..| | |];
    right; exists b, pg; apply steps_on_page in Ht; rewrite Forall_forall in Ht;
    (split; [right; now left |]); (split; [right; right; now left |]);
    intros c pg' Hin Hc; rewrite calls_app in Hin; simpl in Hin;
    destruct Hin as [<-|[<-|[<-|Hin]]]; try discriminate;
    rewrite calls_app in Hin; apply in_app_or in Hin as [Hin|Hin].
  - apply in_calls in Hin as [a Hin]. apply list_elem_of_In, Ht in Hin.
    simpl in Hin. congruence.
  - simpl in Hin. destruct Hin as [<-|[]]. discriminate.
  - apply in_calls in Hin as [a Hin]. apply list_elem_of_In, Ht in Hin.
    simpl in Hin. congruence.
  - simpl in Hin. destruct Hin as [<-|[<-|[]]]; discriminate.
  - apply in_calls in Hin as [a Hin]. apply list_elem_of_In, Ht in Hin.
    simpl in Hin. congruence.
  - simpl in Hin. destruct Hin as [<-|[<-|[]]]; discriminate.
Qed.



(** *** The screenshot and the file *)

Lemma files_after_shot dir t1 pg path fp b t2 fs :
  Forall (fun ev => is_screenshot ev.1 = false) t1 ->
  Forall (fun ev => is_screenshot ev.1 = false) t2 ->
  files_after dir (t1 ++ (Screenshot pg path fp, Return (VBytes b)) :: t2) fs =
  <[resolve dir path := b]> fs.
Proof.
  intros H1 H2. rewrite files_after_app.
  change ((Screenshot pg path fp, Return (VBytes b)) :: t2)
    with ([(Screenshot pg path fp, Return (VBytes b))] ++ t2).
  rewrite files_after_app, (files_after_untouched dir t1),
    (files_after_untouched dir t2); [reflexivity | |].
  - eapply Forall_impl; [exact H2 |]. intros ev Hev; simpl in *; congruence.
  - eapply Forall_impl; [exact H1 |]. intros ev Hev; simpl in *; congruence.
Qed.

Lemma filter_no_screenshot (t : list event) :
  Forall (fun ev => is_screenshot ev.1 = false) t ->
  List.filter is_screenshot (calls t) = [].
Proof.
  induction 1 as [|[c a] t Hc _ IH]; [reflexivity |].
  simpl in *. now rewrite Hc.
Qed.

(** A run of [main] either raised without a screenshot that returned, or
    took exactly one, of the viewport, followed by [browser.close()] and
    the exit of the [with] block. *)
Lemma main_run_capture w t r w' :
  main_run L w t r w' ->
  ((exists e, r = Raise e) /\
   Forall (fun ev => is_screenshot ev.1 = true -> event_returned ev = false) t) \/
  (exists pg b t1 t2 wb wb',
      t = t1 ++ (Screenshot pg screenshot_path None, Return (VBytes b)) :: t2 /\
      Forall (fun ev => is_screenshot ev.1 = false) t1 /\
      Forall (fun ev => event_returned ev = true) t1 /\
      Forall (fun ev => is_screenshot ev.1 = false) t2 /\
      capture L pg false wb = (Return b, wb') /\
      exists b0 a, t2 = [(Close b0, a); exited]).
Proof.
  intros Hrun.
  destruct Hrun as [e0 w1 _|w0 e0 w1 _ _|w0 b w1 e0 w2 _ _ _
                   |w0 b w1 pg w2 t e0 w3 _ _ _ Ht
                   |w0 b w1 pg w2 t w3 e0 w4 _ _ _ Ht _
                   |w0 b w1 pg w2 t w3 w4 _ _ _ Ht _].
  1-3: left; split; [eauto |]; repeat constructor; simpl; intros; discriminate.
  - left. split; [eauto |].
    apply steps_shape in Ht as [(t1 & b' & wb & [=] & _)|(e & _ & Hall)].
    repeat (apply Forall_cons; split; [simpl; intros; discriminate |]).
    apply Forall_app. split; [exact Hall |].
    repeat constructor; simpl; intros; discriminate.
  - right. destruct (trace_of_return L _ _ _ _ _ Ht) as [_ Hret].
    apply steps_shape in Ht as [(t1 & b' & wb & _ & -> & Hall & Hc)|(e & [=] & _)].
    apply Forall_app in Hret as [Hret _].
    exists pg, b', ([entered; launched b; opened b pg] ++ t1),
      [(Close b, Raise e0); exited], wb, w3.
    split; [now rewrite <- !app_assoc |].
    split; [| split; [| split; [| split; [exact Hc | eauto]]]].
    + repeat (apply Forall_cons; split; [reflexivity |]). exact Hall.
    + repeat (apply Forall_cons; split; [reflexivity |]). exact Hret.
    + repeat constructor.
  - right. destruct (trace_of_return L _ _ _ _ _ Ht) as [_ Hret].
    apply steps_shape in Ht as [(t1 & b' & wb & _ & -> & Hall & Hc)|(e & [=] & _)].
    apply Forall_app in Hret as [Hret _].
    exists pg, b', ([entered; launched b; opened b pg] ++ t1),
      [(Close b, Return VNone); exited], wb, w3.
    split; [now rewrite <- !app_assoc |].
    split; [| split; [| split; [| split; [exact Hc | eauto]]]].
    + repeat (apply Forall_cons; split; [reflexivity |]). exact Hall.
    + repeat (apply Forall_cons; split; [reflexivity |]). exact Hret.
    + repeat constructor.
Qed.

Lemma main_run_raised_unique w t r w' c1 e1 c2 e2 :
  main_run L w t r w' ->
  In (c1, Raise e1) t -> In (c2, Raise e2) t -> c1 = c2.
Proof.
  intros Hrun.
  assert (Hone : forall (t1 : list event) c0 e0,
             Forall (fun ev => event_returned ev = true) t1 ->
             In (c1, Raise e1) (t1 ++ [(c0, Raise e0)]) ->
             In (c2, Raise e2) (t1 ++ [(c0, Raise e0)]) -> c1 = c2).
  { intros t1 c0 e0 Hall H1 H2.
    apply in_raised_split in H1, H2; try exact Hall.
    destruct H1 as [[= <- _]|[]], H2 as [[= <- _]|[]]. reflexivity. }
  destruct Hrun as [e0 w1 _|w0 e0 w1 _ _|w0 b w1 e0 w2 _ _ _
                   |w0 b w1 pg w2 t e0 w3 _ _ _ Ht
                   |w0 b w1 pg w2 t w3 e0 w4 _ _ _ Ht _
                   |w0 b w1 pg w2 t w3 w4 _ _ _ Ht _]; intros H1 H2.
  - apply (Hone [] SyncPlaywrightEnter e0); [constructor | exact H1 | exact H2].
  - unfold entered, exited in *. simpl in H1, H2. intuition congruence.
  - unfold entered, exited, launched in *. simpl in H1, H2. intuition congruence.
  - apply trace_of_raise in Ht as (t1 & c & -> & Hall).
    simpl in H1, H2.
    destruct H1 as [[=]|[[=]|[[=]|H1]]], H2 as [[=]|[[=]|[[=]|H2]]].
    apply in_app_or in H1 as [H1|[[=]|[]]], H2 as [H2|[[=]|[]]].
    now apply (Hone t1 c e0).
  - apply trace_of_return in Ht as [_ Hall].
    simpl in H1, H2.
    destruct H1 as [[=]|[[=]|[[=]|H1]]], H2 as [[=]|[[=]|[[=]|H2]]].
    apply (Hone t (Close b) e0 Hall).
    + apply in_app_or in H1 as [H1|[H1|[[=]|[]]]];
        apply in_or_app; [now left | right; now left].
    + apply in_app_or in H2 as [H2|[H2|[[=]|[]]]];
        apply in_or_app; [now left | right; now left].
  - exfalso. apply trace_of_return in Ht as [_ Hall].
    simpl in H1. destruct H1 as [[=]|[[=]|[[=]|H1]]].
    apply in_app_or in H1 as [H1|[[=]|[[=]|[]]]].
    rewrite Forall_forall in Hall. apply list_elem_of_In, Hall in H1.
    discriminate.
Qed.

Lemma script_process argv environ w dir fs :
  exists t w',
    main_run L w t (script L argv environ (boot w dir fs)).1 w' /\
    log (script L argv environ (boot w dir fs)).2 = t /\
    files (script L argv environ (boot w dir fs)).2 = files_after dir t fs.
Proof.
  unfold script.
  destruct (main_spec L (boot w dir fs)) as (t & w' & Hrun & Hp).
  exists t, w'. rewrite Hp. auto.
Qed.

(** C6: when a call that comes before the screenshot raised (the click
    on the Profile menu item, for one), no screenshot call is made in
    the run and the files are what they were before it: the output file
    keeps its content, or stays absent. *)
Theorem no_screenshot_after_failure (argv : list string)
    (environ : gmap string string) (w : W) (dir : string)
    (fs : gmap string image) (c : call) (e : exn) :
  In (c, Raise e) (log (script L argv environ (boot w dir fs)).2) ->
  before_capture c = true ->
  (forall c', In c' (calls (log (script L argv environ (boot w dir fs)).2)) ->
              is_screenshot c' = false) /\
  files (script L argv environ (boot w dir fs)).2 = fs /\
  files (script L argv environ (boot w dir fs)).2 !! resolve dir screenshot_path
    = fs !! resolve dir screenshot_path.
Proof.
  destruct (script_process argv environ w dir fs) as (t & w' & Hrun & -> & ->).
  intros Hin Hc.
  assert (Hnone : Forall (fun ev => is_screenshot ev.1 = false) t).
  { destruct (main_run_capture _ _ _ _ Hrun)
      as [[_ Hall]|(pg & b & t1 & t2 & wb & wb' & -> & _ & Hret & _ & _ & b0 & a & ->)].
    - apply Forall_forall. intros [c' a'] Hin'. simpl.
      destruct (is_screenshot c') eqn:Es; [exfalso | reflexivity].
      rewrite Forall_forall in Hall. specialize (Hall _ Hin' Es).
      destruct a' as [v|e']; [discriminate |].
      apply list_elem_of_In in Hin'.
      rewrite (main_run_raised_unique _ _ _ _ _ _ _ _ Hrun Hin Hin') in Hc.
      destruct c'; discriminate.
    - exfalso. apply in_raised_split in Hin; [| exact Hret].
      destruct Hin as [[=]|[[= <- _]|[[=]|[]]]]. discriminate. }
  split; [| split].
  - intros c' Hin'. apply in_calls in Hin' as [a Hin'].
    rewrite Forall_forall in Hnone. now apply list_elem_of_In, Hnone in Hin'.
  - apply files_after_untouched. eapply Forall_impl; [exact Hnone |].
    intros ev Hev; simpl in *; congruence.
  - f_equal. apply files_after_untouched. eapply Forall_impl; [exact Hnone |].
    intros ev Hev; simpl in *; congruence.
Qed.

Lemma filter_on_page pg (t : list event) :
  Forall (fun ev => page_of ev.1 = Some pg) t ->
  List.filter on_page (calls t) = calls t.
Proof.
  induction 1 as [|[c a] t Hc _ IH]; [reflexivity |].
  simpl in *. unfold on_page at 1. now rewrite Hc, IH.
Qed.

(** The calls [main] makes on a page are a prefix of the ten steps. *)
Lemma main_run_page_calls w t r w' :
  main_run L w t r w' ->
  exists pg, List.filter on_page (calls t) `prefix_of` profile_steps pg.
Proof.
  intros Hrun.
  destruct Hrun as [e0 w1 _|w0 e0 w1 _ _|w0 b w1 e0 w2 _ _ _
                   |w0 b w1 pg w2 t e0 w3 _ _ _ Ht
                   |w0 b w1 pg w2 t w3 e0 w4 _ _ _ Ht _
                   |w0 b w1 pg w2 t w3 w4 _ _ _ Ht _];
    [exists 0; apply prefix_nil .. | | |];
    exists pg; rewrite !calls_app, !List.filter_app,
      (filter_on_page pg t (steps_on_page L _ _ _ _ _ Ht)); simpl;
    rewrite app_nil_r; exact (trace_of_prefix L _ _ _ _ _ Ht).
Qed.



(** C2, as the code has it: when the script exits with status 0 it took
    one screenshot, the last call made on the page, by
    [page.screenshot(path=...)] with no [full_page] keyword, so of the
    viewport ([capture] with the flag false); the bytes it returned are
    the content of jules-scratch/verification/profile_page.png under
    the working directory, whatever that file held before. *)
Theorem screenshot_on_success (argv : list string)
    (environ : gmap string string) (w : W) (dir : string)
    (fs : gmap string image) :
  (run L argv environ w dir fs).1 = 0 ->
  let p := (run L argv environ w dir fs).2 in
  exists pg b wb wb',
    capture L pg false wb = (Return b, wb') /\
    List.filter is_screenshot (calls (log p)) =
      [Screenshot pg "jules-scratch/verification/profile_page.png" None] /\
    full_page_of (Screenshot pg "jules-scratch/verification/profile_page.png" None)
      = Some false /\
    In (Screenshot pg "jules-scratch/verification/profile_page.png" None,
        Return (VBytes b)) (log p) /\
    last (List.filter on_page (calls (log p))) =
      Some (Screenshot pg "jules-scratch/verification/profile_page.png" None) /\
    files p = <[resolve dir screenshot_path := b]> fs /\
    files p !! resolve dir screenshot_path = Some b.
Proof.
  unfold run.
  destruct (script_process argv environ w dir fs) as (t & w' & Hrun & El & Ef).
  destruct (script L argv environ (boot w dir fs)) as [r p]. simpl in *.
  subst t. intros Hr.
  destruct (main_run_capture _ _ _ _ Hrun)
    as [[[e ->] _]|(pg & b & t1 & t2 & wb & wb' & E & H1 & _ & H2 & Hc & b0 & a & ->)];
    [discriminate |].
  exists pg, b, wb, wb'. rewrite Ef, E.
  split; [exact Hc |]. split; [| split; [reflexivity | split; [| split; [| split]]]].
  - rewrite calls_app, List.filter_app, (filter_no_screenshot t1 H1). reflexivity.
  - apply in_or_app. right. now left.
  - rewrite calls_app, List.filter_app. simpl. apply last_snoc.
  - now apply files_after_shot.
  - rewrite files_after_shot by assumption. apply lookup_insert_eq.
Qed.

(** *** The URL assertions *)

Lemma poll_spec (cond : W -> bool) n : forall w,
  (poll L n cond w).1 = true <->
  exists k, k <= n /\ cond (Nat.iter k (tick L) w) = true.
Proof.
  induction n as [|n IH]; intros w; simpl.
  - destruct (cond w) eqn:Ec; simpl; split.
    + intros _. exists 0. auto.
    + reflexivity.
    + discriminate.
    + intros (k & Hk & Hc). replace k with 0 in Hc by lia. simpl in Hc. congruence.
  - destruct (cond w) eqn:Ec; simpl.
    + split; [intros _; exists 0; split; [lia | exact Ec] | reflexivity].
    + rewrite IH. split.
      * intros (k & Hk & Hc). exists (S k). split; [lia |].
        now rewrite Nat.iter_succ_r.
      * intros (k & Hk & Hc). destruct k as [|k]; [simpl in Hc; congruence |].
        exists k. split; [lia |]. now rewrite <- Nat.iter_succ_r.
Qed.

Lemma expect_to_have_url_spec page pattern p :
  (expect_to_have_url L page pattern p).1 = Return tt <->
  exists k, k <= retries L /\
            url_matches pattern (url L page (Nat.iter k (tick L) (world p))) = true.
Proof.
  unfold expect_to_have_url. rewrite invoke_unfold. cbn [fst].
  rewrite <- (poll_spec (fun w => url_matches pattern (url L page w))).
  unfold expect.
  destruct (poll L (retries L) _ (world p)) as [[|] w']; simpl; split;
    congruence.
Qed.

(** C3, as the code has it: the assertion after the login returns
    exactly when, at one of its polls, the URL of the page contains
    /dashboard, and the assertion after the navigation exactly when it
    contains /profile: the pattern is searched for in the URL, so what
    follows the suffix does not matter.  These are the fifth and the
    eighth call of [verify_profile_page]. *)
Theorem url_assertions_accept_containing (page : handle) (p : process W) :
  ((expect_to_have_url L page (Re.compile ".*/dashboard") p).1 = Return tt <->
   exists k, k <= retries L /\
     Re.contains (list_ascii_of_string "/dashboard")
       (list_ascii_of_string (url L page (Nat.iter k (tick L) (world p))))) /\
  ((expect_to_have_url L page (Re.compile ".*/profile") p).1 = Return tt <->
   exists k, k <= retries L /\
     Re.contains (list_ascii_of_string "/profile")
       (list_ascii_of_string (url L page (Nat.iter k (tick L) (world p))))) /\
  profile_steps page !! 4 = Some (ToHaveUrl page (Re.compile ".*/dashboard")) /\
  profile_steps page !! 7 = Some (ToHaveUrl page (Re.compile ".*/profile")).
Proof.
  split; [| split; [| split; reflexivity]];
    rewrite expect_to_have_url_spec; unfold url_matches;
    split; intros (k & Hk & H); exists k; (split; [exact Hk |]).
  - now apply (ReFacts.search_dotstar_literal (list_ascii_of_string "/dashboard")).
  - now apply (ReFacts.search_dotstar_literal (list_ascii_of_string "/dashboard")).
  - now apply (ReFacts.search_dotstar_literal (list_ascii_of_string "/profile")).
  - now apply (ReFacts.search_dotstar_literal (list_ascii_of_string "/profile")).
Qed.

(** What is raised in the log and what comes out of the functions. *)
Lemma raised_calls_and_outcome (argv : list string) (environ : gmap string string)
    (w : W) (dir : string) (fs : gmap string image) (page : handle)
    (q : process W) :
  let r := (script L argv environ (boot w dir fs)).1 in
  let t := log (script L argv environ (boot w dir fs)).2 in
  (forall c e, In (c, Raise e) t -> r = Raise e) /\
  (forall e, r = Raise e -> exists c, In (c, Raise e) t) /\
  (r = Return tt <-> Forall (fun ev => event_returned ev = true) t) /\
  (exit_status r = 0 <-> Forall (fun ev => event_returned ev = true) t) /\
  (exit_status r = 1 <-> exists c e, In (c, Raise e) t) /\
  (exists t' w',
      (verify_profile_page L page q).2 = advanced q t' w' /\
      (forall c e, In (c, Raise e) t' ->
                   (verify_profile_page L page q).1 = Raise e) /\
      (forall e, (verify_profile_page L page q).1 = Raise e ->
                 exists c, In (c, Raise e) t')).
Proof.
  intros r t. unfold script in r, t.
  destruct (main_spec L (boot w dir fs)) as (t0 & w' & Hrun & Hp).
  fold r in Hrun. assert (Et : t = t0) by (unfold t; now rewrite Hp).
  rewrite Et. clear Et t Hp.
  assert (Hret := main_run_returned _ _ _ _ Hrun).
  split; [intros c e; now apply main_run_raised with (1 := Hrun) |].
  split; [intros e Hr; rewrite Hr in Hrun; now apply main_run_raise in Hrun |].
  split; [exact Hret |]. split; [| split].
  - rewrite <- Hret. destruct r as [[]|e]; simpl; split; congruence.
  - split.
    + destruct r as [[]|e] eqn:Er; simpl; [discriminate | intros _].
      apply main_run_raise in Hrun as [c Hin]. eauto.
    + intros (c & e & Hin). apply main_run_raised with (1 := Hrun) in Hin.
      now rewrite Hin.
  - destruct (verify_profile_page_trace L page q) as (t' & w'' & Ht & Hq).
    exists t', w''. split; [exact Hq |]. split.
    + intros c e Hin. exact (trace_of_in_raise L _ _ _ _ _ _ _ Ht Hin).
    + intros e Hr. rewrite Hr in Ht.
      apply trace_of_raise in Ht as (t1 & c & -> & _). exists c.
      apply in_or_app. right. now left.
Qed.

(** The launches, pages and live resources that a log shows. *)
Lemma launches_and_pages_in_log (argv : list string)
    (environ : gmap string string) (w : W) (dir : string)
    (fs : gmap string image) :
  let t := log (script L argv environ (boot w dir fs)).2 in
  (forall h, In (Launch h) (calls t) -> h = true) /\
  length (List.filter is_launch (calls t)) <= 1 /\
  length (List.filter is_new_page (calls t)) <= 1 /\
  (In entered t -> List.filter is_launch (calls t) = [Launch true]) /\
  (forall b, In (launched b) t -> List.filter is_new_page (calls t) = [NewPage b]) /\
  (forall c pg, In c (calls t) -> page_of c = Some pg ->
     exists b, In (launched b) t /\ In (opened b pg) t) /\
  (forall c c' pg pg', In c (calls t) -> In c' (calls t) ->
     page_of c = Some pg -> page_of c' = Some pg' -> pg = pg') /\
  (forall t1 t2, t = t1 ++ t2 ->
     length (browsers (resources_after t1)) <= 1 /\
     length (pages (resources_after t1)) <= 1).
Proof.
  intros t. unfold script in t.
  destruct (main_spec L (boot w dir fs)) as (t0 & w' & Hrun & Hp).
  assert (Et : t = t0) by (unfold t; now rewrite Hp).
  rewrite Et. clear Et t Hp.
  destruct (main_run_counts _ _ _ _ Hrun) as (Hl & Hn & Hl1 & Hn1).
  split; [| split; [exact Hl | split; [exact Hn | split; [exact Hl1 |
           split; [exact Hn1 | split; [| split]]]]]].
  - intros h Hin.
    assert (Hf : In (Launch h) (List.filter is_launch (calls t0)))
      by (apply filter_In; now split).
    destruct (main_run_exit _ _ _ _ Hrun) as [(e & -> & _)|(t' & E)];
      [destruct Hf |].
    rewrite Hl1 in Hf by (rewrite E; now left).
    destruct Hf as [[= <-]|[]]. reflexivity.
  - intros c pg Hin Hc.
    destruct (main_run_pages _ _ _ _ Hrun) as [Hnone|(b & pg0 & Hb & Ho & Hall)].
    + rewrite (Hnone c Hin) in Hc. discriminate.
    + rewrite (Hall c pg Hin Hc). eauto.
  - intros c c' pg pg' Hin Hin' Hc Hc'.
    destruct (main_run_pages _ _ _ _ Hrun) as [Hnone|(b & pg0 & Hb & Ho & Hall)].
    + rewrite (Hnone c Hin) in Hc. discriminate.
    + rewrite (Hall c pg Hin Hc), (Hall c' pg' Hin' Hc'). reflexivity.
  - intros t1 t2 ->. rewrite calls_app, !List.filter_app, !length_app in *.
    destruct (live_bound t1 idle) as [Hb Hp]. simpl in Hb, Hp.
    unfold resources_after. lia.
Qed.

(** The navigations and the values typed that a log shows. *)
Lemma literal_inputs_in_log (argv argv' : list string)
    (environ environ' : gmap string string) (w : W) (dir : string)
    (fs : gmap string image) :
  script L argv environ = script L argv' environ' /\
  let t := log (script L argv environ (boot w dir fs)).2 in
  (forall pg a, In (Goto pg a) (calls t) ->
     a = "http://localhost:3000/admin/login") /\
  (forall pg target v, In (Fill pg target v) (calls t) ->
     (target = get_by_label "Email Address" /\ v = "admin@gorectus.local") \/
     (target = get_by_label "Password" /\ v = "admin123")) /\
  (exists pg, List.filter on_page (calls t) `prefix_of` profile_steps pg) /\
  (forall pg, take 3 (profile_steps pg) =
     [ Goto pg "http://localhost:3000/admin/login";
       Fill pg (get_by_label "Email Address") "admin@gorectus.local";
       Fill pg (get_by_label "Password") "admin123" ]).
Proof.
  split; [reflexivity |]. intros t.
  destruct (script_process argv environ w dir fs) as (t0 & w' & Hrun & Et & _).
  fold t in Et. rewrite Et. clear Et t.
  destruct (main_run_page_calls _ _ _ _ Hrun) as [pg0 [k Hk]].
  assert (Hin : forall c, In c (calls t0) -> on_page c = true ->
                          In c (profile_steps pg0)).
  { intros c Hin Hc. rewrite Hk. apply in_or_app. left.
    apply filter_In. now split. }
  split; [| split; [| split; [now exists pg0, k | reflexivity]]].
  - intros pg a Ha. apply Hin in Ha; [| reflexivity].
    simpl in Ha. intuition congruence.
  - intros pg target v Ha. apply Hin in Ha; [| reflexivity].
    simpl in Ha. intuition (try congruence); simplify_eq; auto.
Qed.


(** *** Where the screenshot goes *)

Lemma resolve_working_directory dir path :
  working_directory dir = true -> is_absolute path = false ->
  resolve dir path = if String.eqb dir "/" then "/" +:+ path
                     else dir +:+ "/" +:+ path.
Proof.
  unfold working_directory, resolve. intros Hd ->.
  apply andb_true_iff in Hd as [Habs Hd].
  destruct (String.eqb_spec dir "/") as [->|Hne]; [reflexivity |].
  simpl in Hd. apply negb_true_iff in Hd. rewrite Hd.
  destruct dir as [|c dir]; [discriminate | reflexivity].
Qed.

(** Two working directories that give the same file are the same. *)
Lemma resolve_injective dir dir' path :
  working_directory dir = true -> working_directory dir' = true ->
  is_absolute path = false ->
  resolve dir path = resolve dir' path -> dir = dir'.
Proof.
  intros Hd Hd' Hp E.
  rewrite (resolve_working_directory dir path Hd Hp),
    (resolve_working_directory dir' path Hd' Hp) in E.
  assert (Hroot : forall d, working_directory d = true ->
                            "/" +:+ path = d +:+ "/" +:+ path -> False).
  { intros d Hw Ed. change ("/" +:+ path) with ("" +:+ "/" +:+ path) in Ed at 1.
    apply string_append_cancel_r in Ed. subst d. discriminate. }
  destruct (String.eqb_spec dir "/") as [->|Hne],
           (String.eqb_spec dir' "/") as [->|Hne']; [reflexivity | | |].
  - destruct (Hroot dir' Hd' E).
  - destruct (Hroot dir Hd (eq_sym E)).
  - now apply string_append_cancel_r in E.
Qed.

(** A run writes the picture at the screenshot path under its working
    directory, or no file at all. *)
Lemma script_files argv environ w dir fs :
  files (script L argv environ (boot w dir fs)).2 = fs \/
  exists b, files (script L argv environ (boot w dir fs)).2
            = <[resolve dir screenshot_path := b]> fs.
Proof.
  destruct (script_process argv environ w dir fs) as (t & w' & Hrun & _ & ->).
  destruct (main_run_capture _ _ _ _ Hrun)
    as [[_ Hall]|(pg & b & t1 & t2 & wb & wb' & -> & H1 & _ & H2 & _ & _)].
  - left. now apply files_after_untouched.
  - right. exists b. now apply files_after_shot.
Qed.

(** *** What the script calls, from the answers of the library *)

(** C5: no error is caught.  The script always makes its first call, the
    start of the driver, and [verify_profile_page] its first, the
    navigation; a call that raises, in [verify_profile_page] or in
    [main], ends the function it is in with that error, and the script
    with exit status 1; conversely an error that comes out of either is
    the error of a call that raised.  The exit status is 0 exactly when
    all fifteen calls were made and returned: the start of the driver,
    the launch, the new page, the ten steps, the close and the exit of
    the block; and [verify_profile_page] returns exactly when its ten
    steps were made and returned. *)
Theorem errors_propagate (argv : list string) (environ : gmap string string)
    (w : W) (dir : string) (fs : gmap string image) (page : handle)
    (q : process W) :
  let r := (script L argv environ (boot w dir fs)).1 in
  let t := log (script L argv environ (boot w dir fs)).2 in
  t !! 0 = Some (SyncPlaywrightEnter, (reply L SyncPlaywrightEnter w).1) /\
  (forall c e, In (c, Raise e) t -> r = Raise e) /\
  (forall e, r = Raise e -> exists c, In (c, Raise e) t) /\
  (r = Return tt <-> Forall (fun ev => event_returned ev = true) t) /\
  (exit_status r = 0 <-> Forall (fun ev => event_returned ev = true) t) /\
  (exit_status r = 1 <-> exists c e, In (c, Raise e) t) /\
  (exit_status r = 0 <->
   exists br pg,
     calls t = [SyncPlaywrightEnter; Launch true; NewPage br]
                 ++ profile_steps pg ++ [Close br; SyncPlaywrightExit] /\
     Forall (fun ev => event_returned ev = true) t) /\
  (exists t' w',
      (verify_profile_page L page q).2 = advanced q t' w' /\
      t' !! 0 = Some (Goto page "http://localhost:3000/admin/login",
                      (reply L (Goto page "http://localhost:3000/admin/login")
                             (world q)).1) /\
      (forall c e, In (c, Raise e) t' ->
                   (verify_profile_page L page q).1 = Raise e) /\
      (forall e, (verify_profile_page L page q).1 = Raise e ->
                 exists c, In (c, Raise e) t') /\
      ((verify_profile_page L page q).1 = Return tt <->
         calls t' = profile_steps page /\
         Forall (fun ev => event_returned ev = true) t')).
Proof.
  intros r t.
  destruct (raised_calls_and_outcome argv environ w dir fs page q)
    as (H1 & H2 & H3 & H4 & H5 & _).
  fold r t in H1, H2, H3, H4, H5.
  destruct (script_process argv environ w dir fs) as (t0 & w' & Hrun & Et & _).
  fold r in Hrun. fold t in Et.
  split; [rewrite Et; exact (main_run_first _ _ _ _ Hrun) |].
  split; [exact H1 |]. split; [exact H2 |]. split; [exact H3 |].
  split; [exact H4 |]. split; [exact H5 |]. split.
  - rewrite Et. rewrite <- (main_run_all_calls _ _ _ _ Hrun).
    destruct r as [[]|e]; simpl; split; congruence.
  - destruct (verify_profile_page_trace L page q) as (t' & w'' & Ht & Hq).
    exists t', w''. split; [exact Hq |].
    split; [exact (proj1 (trace_of_head _ _ _ _ _ _ Ht)) |].
    split; [| split; [| split]].
    + intros c e Hin. exact (trace_of_in_raise L _ _ _ _ _ _ _ Ht Hin).
    + intros e Hr. rewrite Hr in Ht.
      apply trace_of_raise in Ht as (t1 & c & -> & _). exists c.
      apply in_or_app. right. now left.
    + intros Hr. rewrite Hr in Ht. now apply trace_of_return in Ht.
    + intros [_ Hall]. now apply (trace_of_all_returned L _ _ _ _ _ Ht).
Qed.

(** The three first steps of [verify_profile_page], as the library
    answers them. *)
Lemma first_steps_made pg w ts r w' :
  trace_of L w (profile_steps pg) ts r w' ->
  let c1 := Goto pg "http://localhost:3000/admin/login" in
  let c2 := Fill pg (get_by_label "Email Address") "admin@gorectus.local" in
  let c3 := Fill pg (get_by_label "Password") "admin123" in
  ts !! 0 = Some (c1, (reply L c1 w).1) /\
  (returned (reply L c1 w).1 = true ->
   ts !! 1 = Some (c2, (reply L c2 (reply L c1 w).2).1) /\
   (returned (reply L c2 (reply L c1 w).2).1 = true ->
    ts !! 2 = Some (c3, (reply L c3 (reply L c2 (reply L c1 w).2).2).1))).
Proof.
  intros Ht c1 c2 c3. unfold profile_steps in Ht.
  destruct (trace_of_head _ _ _ _ _ _ Ht) as [H0 Hnext0].
  split; [exact H0 |]. intros R1.
  destruct (Hnext0 R1) as (t1 & -> & Ht1).
  destruct (trace_of_head _ _ _ _ _ _ Ht1) as [H1 Hnext1].
  split; [exact H1 |]. intros R2.
  destruct (Hnext1 R2) as (t2 & -> & Ht2).
  exact (proj1 (trace_of_head _ _ _ _ _ _ Ht2)).
Qed.

(** C7: the inputs are the literals in the text of the script.  Nothing
    of the command line or of the environment reaches [main].  Once the
    driver started, the browser was launched and the page opened, the
    script navigates that page to http://localhost:3000/admin/login;
    when the navigation returned it types admin@gorectus.local into the
    field labelled Email Address, and when that returned, admin123 into
    the field labelled Password.  Every navigation and every value typed
    in a run is one of these, the calls made on the page are a prefix of
    the ten steps, and a run that exits with status 0 made all three. *)
Theorem fixed_inputs (argv argv' : list string)
    (environ environ' : gmap string string) (w : W) (dir : string)
    (fs : gmap string image) :
  script L argv environ = script L argv' environ' /\
  let r := (script L argv environ (boot w dir fs)).1 in
  let t := log (script L argv environ (boot w dir fs)).2 in
  (forall v0 br v1 pg v2,
     start L w = (Return tt, v0) ->
     launch L true v0 = (Return br, v1) ->
     new_page L br v1 = (Return pg, v2) ->
     let c1 := Goto pg "http://localhost:3000/admin/login" in
     let c2 := Fill pg (get_by_label "Email Address") "admin@gorectus.local" in
     let c3 := Fill pg (get_by_label "Password") "admin123" in
     t !! 3 = Some (c1, (reply L c1 v2).1) /\
     (returned (reply L c1 v2).1 = true ->
      t !! 4 = Some (c2, (reply L c2 (reply L c1 v2).2).1) /\
      (returned (reply L c2 (reply L c1 v2).2).1 = true ->
       t !! 5 = Some (c3, (reply L c3 (reply L c2 (reply L c1 v2).2).2).1)))) /\
  (exit_status r = 0 ->
   exists pg,
     In (Goto pg "http://localhost:3000/admin/login") (calls t) /\
     In (Fill pg (get_by_label "Email Address") "admin@gorectus.local") (calls t) /\
     In (Fill pg (get_by_label "Password") "admin123") (calls t)) /\
  (forall pg a, In (Goto pg a) (calls t) ->
     a = "http://localhost:3000/admin/login") /\
  (forall pg target v, In (Fill pg target v) (calls t) ->
     (target = get_by_label "Email Address" /\ v = "admin@gorectus.local") \/
     (target = get_by_label "Password" /\ v = "admin123")) /\
  (exists pg, List.filter on_page (calls t) `prefix_of` profile_steps pg) /\
  (forall pg, take 3 (profile_steps pg) =
     [ Goto pg "http://localhost:3000/admin/login";
       Fill pg (get_by_label "Email Address") "admin@gorectus.local";
       Fill pg (get_by_label "Password") "admin123" ]).
Proof.
  split; [reflexivity |]. intros r t.
  destruct (literal_inputs_in_log argv argv' environ environ' w dir fs)
    as (_ & Hg & Hf & Hp & Ht3).
  fold t in Hg, Hf, Hp.
  destruct (script_process argv environ w dir fs) as (t0 & w' & Hrun & Et & _).
  fold r in Hrun. fold t in Et.
  split; [| split; [| split; [exact Hg | split; [exact Hf |
           split; [exact Hp | exact Ht3]]]]].
  - intros v0 br v1 pg v2 H0 H1 H2 c1 c2 c3. rewrite Et.
    destruct (main_run_opened _ _ _ _ _ _ _ _ _ Hrun H0 H1 H2)
      as (ts & r' & v3 & tail & -> & Hts & _).
    destruct (first_steps_made _ _ _ _ _ Hts) as [E0 Hn0].
    fold c1 c2 c3 in E0, Hn0.
    destruct ts as [|ev0 ts]; [discriminate |].
    split; [exact E0 |]. intros R1. destruct (Hn0 R1) as [E1 Hn1].
    destruct ts as [|ev1 ts]; [discriminate |].
    split; [exact E1 |]. intros R2. specialize (Hn1 R2).
    destruct ts as [|ev2 ts]; [discriminate |]. exact Hn1.
  - intros Hr.
    assert (r = Return tt) as Er
      by (destruct r as [[]|]; [reflexivity | discriminate]).
    apply (main_run_all_calls _ _ _ _ Hrun) in Er as (br & pg & Hc & _).
    exists pg. rewrite Et, Hc. simpl.
    split; [| split]; repeat (first [left; reflexivity | right]).
Qed.

Lemma calls_length (t : list event) : length (calls t) = length t.
Proof. unfold calls. apply length_map. Qed.

(** The calls made on a page change nothing in what is live. *)
Lemma account_on_page pg (t : list event) : forall rs,
  Forall (fun ev => page_of ev.1 = Some pg) t -> fold_left account t rs = rs.
Proof.
  induction t as [|[c a] t IH]; intros rs Hall; [reflexivity |].
  apply Forall_cons in Hall as [Hc Hall]. simpl in Hc. cbn [fold_left].
  assert (account rs (c, a) = rs) as ->
    by (destruct c; try discriminate; reflexivity).
  now apply IH.
Qed.

(** C8: once the driver started, the second call of [main] is the one
    launch of a browser, headless; once that returned a browser, the
    third call is the one [new_page], on that browser; once that
    returned a page, the steps of the script are made on that page, at
    least one of them and none on another, and while they are made
    exactly that browser and that page are live.  In every run a
    browser is launched at most once and a page opened at most once,
    and after every prefix of the run at most one browser and one page
    are live. *)
Theorem one_browser_one_page (argv : list string)
    (environ : gmap string string) (w : W) (dir : string)
    (fs : gmap string image) :
  let t := log (script L argv environ (boot w dir fs)).2 in
  (forall v0, start L w = (Return tt, v0) ->
     t !! 0 = Some entered /\
     t !! 1 = Some (Launch true, (reply L (Launch true) v0).1) /\
     List.filter is_launch (calls t) = [Launch true]) /\
  (forall v0 br v1,
     start L w = (Return tt, v0) -> launch L true v0 = (Return br, v1) ->
     t !! 1 = Some (launched br) /\
     t !! 2 = Some (NewPage br, (reply L (NewPage br) v1).1) /\
     List.filter is_new_page (calls t) = [NewPage br] /\
     resources_after (take 2 t) = Resources true [br] []) /\
  (forall v0 br v1 pg v2,
     start L w = (Return tt, v0) -> launch L true v0 = (Return br, v1) ->
     new_page L br v1 = (Return pg, v2) ->
     t !! 2 = Some (opened br pg) /\
     List.filter on_page (calls t) <> [] /\
     Forall (fun c => page_of c = Some pg) (List.filter on_page (calls t)) /\
     (forall n, n <= length (List.filter on_page (calls t)) ->
        resources_after (take (3 + n) t) = Resources true [br] [(pg, br)])) /\
  (forall h, In (Launch h) (calls t) -> h = true) /\
  length (List.filter is_launch (calls t)) <= 1 /\
  length (List.filter is_new_page (calls t)) <= 1 /\
  (In entered t -> List.filter is_launch (calls t) = [Launch true]) /\
  (forall b, In (launched b) t -> List.filter is_new_page (calls t) = [NewPage b]) /\
  (forall c pg, In c (calls t) -> page_of c = Some pg ->
     exists b, In (launched b) t /\ In (opened b pg) t) /\
  (forall c c' pg pg', In c (calls t) -> In c' (calls t) ->
     page_of c = Some pg -> page_of c' = Some pg' -> pg = pg') /\
  (forall t1 t2, t = t1 ++ t2 ->
     length (browsers (resources_after t1)) <= 1 /\
     length (pages (resources_after t1)) <= 1).
Proof.
  intros t.
  pose proof (launches_and_pages_in_log argv environ w dir fs) as Hlog.
  fold t in Hlog. cbv zeta in Hlog.
  destruct Hlog as (Hh & Hl & Hn & Hl1 & Hn1 & Hrest).
  destruct (script_process argv environ w dir fs) as (t0 & w' & Hrun & Et & _).
  fold t in Et.
  split; [| split; [| split; [| split; [exact Hh | split; [exact Hl |
    split; [exact Hn | split; [exact Hl1 | split; [exact Hn1 | exact Hrest]]]]]]]].
  - intros v0 H0.
    destruct (main_run_started _ _ _ _ _ Hrun H0) as (rest & E).
    assert (Hin : In entered t) by (rewrite Et, E; now left).
    rewrite (Hl1 Hin), Et, E. auto.
  - intros v0 br v1 H0 H1.
    destruct (main_run_launched _ _ _ _ _ _ _ Hrun H0 H1) as (rest & E).
    assert (Hin : In (launched br) t) by (rewrite Et, E; right; now left).
    rewrite (Hn1 br Hin), Et, E. auto.
  - intros v0 br v1 pg v2 H0 H1 H2.
    destruct (main_run_opened _ _ _ _ _ _ _ _ _ Hrun H0 H1 H2)
      as (ts & r' & v3 & tail & E & Hts & Htail).
    pose proof (steps_on_page L _ _ _ _ _ Hts) as Hpg.
    pose proof (proj1 (trace_of_head _ _ _ _ _ _ Hts)) as Hfirst.
    assert (Ef : List.filter on_page (calls t) = calls ts).
    { rewrite Et, E, !calls_app, !List.filter_app, (filter_on_page pg ts Hpg).
      destruct Htail as [->|[a ->]]; simpl; now rewrite app_nil_r. }
    rewrite Ef. split; [rewrite Et, E; reflexivity |].
    split; [destruct ts; [discriminate | discriminate] |]. split.
    + apply Forall_forall. intros c Hc. apply list_elem_of_In, in_calls in Hc as [a Hc].
      rewrite Forall_forall in Hpg. now apply list_elem_of_In, Hpg in Hc.
    + intros n Hn'. rewrite calls_length in Hn'. rewrite Et, E.
      change (take (3 + n) ([entered; launched br; opened br pg] ++ ts ++ tail))
        with ([entered; launched br; opened br pg] ++ take n (ts ++ tail)).
      rewrite take_app_le by exact Hn'.
      rewrite resources_after_app. apply (account_on_page pg).
      now apply Forall_take.
Qed.

(** C10: the path given to [page.screenshot] is the relative path
    jules-scratch/verification/profile_page.png.  A run that exits with
    status 0 made the call with that path and it returned; whenever the
    call returned, the file written is that path joined to the working
    directory of the process, /jules-scratch/... under the root and
    dir/jules-scratch/... under any other directory; and a run from
    another working directory leaves that file as it was. *)
Theorem screenshot_path_relative (argv : list string)
    (environ : gmap string string) (w : W) (dir : string)
    (fs : gmap string image) :
  let r := (script L argv environ (boot w dir fs)).1 in
  let p := (script L argv environ (boot w dir fs)).2 in
  is_absolute screenshot_path = false /\
  (exit_status r = 0 ->
   exists pg b,
     In (Screenshot pg "jules-scratch/verification/profile_page.png" None,
         Return (VBytes b)) (log p)) /\
  (forall pg path full_page, In (Screenshot pg path full_page) (calls (log p)) ->
     path = "jules-scratch/verification/profile_page.png") /\
  (forall pg path full_page b,
     In (Screenshot pg path full_page, Return (VBytes b)) (log p) ->
     files p = <[resolve dir "jules-scratch/verification/profile_page.png" := b]> fs) /\
  resolve "/" "jules-scratch/verification/profile_page.png"
    = "/jules-scratch/verification/profile_page.png" /\
  (working_directory dir = true -> dir <> "/" ->
   resolve dir "jules-scratch/verification/profile_page.png"
     = dir +:+ "/jules-scratch/verification/profile_page.png") /\
  (forall dir' fs',
     working_directory dir = true -> working_directory dir' = true ->
     dir' <> dir ->
     files (script L argv environ (boot w dir' fs')).2
       !! resolve dir "jules-scratch/verification/profile_page.png"
     = fs' !! resolve dir "jules-scratch/verification/profile_page.png").
Proof.
  intros r p.
  destruct (script_process argv environ w dir fs) as (t & w' & Hrun & El & Ef).
  fold r in Hrun. fold p in El, Ef.
  split; [reflexivity |]. split; [| split; [| split; [| split; [reflexivity | split]]]].
  - intros Hr.
    destruct (main_run_capture _ _ _ _ Hrun)
      as [[[e Er] _]|(pg & b & t1 & t2 & wb & wb' & E & _)].
    + rewrite Er in Hr. discriminate.
    + exists pg, b. rewrite El, E. apply in_or_app. right. now left.
  - intros pg path full_page Hin. rewrite El in Hin.
    destruct (main_run_page_calls _ _ _ _ Hrun) as [pg0 [k Hk]].
    assert (Hs : In (Screenshot pg path full_page) (profile_steps pg0)).
    { rewrite Hk. apply in_or_app. left. apply filter_In. now split. }
    simpl in Hs. intuition congruence.
  - intros pg path full_page b Hin. rewrite El in Hin. rewrite Ef.
    destruct (main_run_capture _ _ _ _ Hrun)
      as [[_ Hall]|(pg0 & b0 & t1 & t2 & wb & wb' & E & H1 & _ & H2 & _ & _)].
    + rewrite Forall_forall in Hall.
      apply list_elem_of_In, Hall in Hin; [discriminate | reflexivity].
    + rewrite E in Hin |- *. rewrite files_after_shot by assumption.
      apply in_app_or in Hin as [Hin|[[= _ _ _ ->]|Hin]]; [| reflexivity |].
      * rewrite Forall_forall in H1. apply list_elem_of_In, H1 in Hin. discriminate.
      * rewrite Forall_forall in H2. apply list_elem_of_In, H2 in Hin. discriminate.
  - intros Hd Hne.
    change (resolve dir screenshot_path = dir +:+ "/" +:+ screenshot_path).
    rewrite (resolve_working_directory dir screenshot_path Hd eq_refl).
    destruct (String.eqb_spec dir "/") as [->|_]; [now destruct Hne | reflexivity].
  - intros dir' fs' Hd Hd' Hne.
    destruct (script_files argv environ w dir' fs') as [->|[b ->]]; [reflexivity |].
    apply lookup_insert_ne. intros E. apply Hne.
    now apply (resolve_injective dir' dir screenshot_path).
Qed.

End Properties.

(** ** Two runs answer alike *)

Section Rerun.
Context {W : Type} (L : Library W) (R : W -> W -> Prop).

#[local] Abbreviation same_answer := (same_answer R).
#[local] Abbreviation rel_process := (rel_process R).
#[local] Abbreviation rel_M := (rel_M R).
#[local] Abbreviation unchanged := (unchanged L R).

Lemma rel_ret {A} (eqv : A -> A -> Prop) a b :
  eqv a b -> rel_M eqv (mret a) (mret b).
Proof. intros Hab p1 p2 Hp. split; [exact Hab | exact Hp]. Qed.

Lemma rel_bind {A B} (eqvA : A -> A -> Prop) (eqvB : B -> B -> Prop)
    (m1 m2 : M W A) (k1 k2 : A -> M W B) :
  rel_M eqvA m1 m2 ->
  (forall a b, eqvA a b -> rel_M eqvB (k1 a) (k2 b)) ->
  rel_M eqvB (m1 ≫= k1) (m2 ≫= k2).
Proof.
  intros Hm Hk p1 p2 Hp. unfold mbind, script_bind.
  destruct (Hm p1 p2 Hp) as [Hr Hp'].
  destruct (m1 p1) as [[a|e1] q1], (m2 p2) as [[b|e2] q2]; simpl in *;
    try contradiction.
  - now apply Hk.
  - split; [exact Hr | exact Hp'].
Qed.

Lemma rel_invoke {A} (eqv : A -> A -> Prop) c (inj : A -> value)
    (op : W -> result A * W) :
  (forall w1 w2, R w1 w2 -> same_answer eqv (op w1) (op w2)) ->
  (forall a b, eqv a b -> same_value (inj a) (inj b)) ->
  rel_M eqv (invoke c inj op) (invoke c inj op).
Proof.
  intros Hop Hinj p1 p2 [Hw Hl]. unfold invoke.
  destruct (Hop _ _ Hw) as [Hr Hw'].
  destruct (op (world p1)) as [r1 w1'], (op (world p2)) as [r2 w2'].
  simpl in *. split; [exact Hr |]. split; [exact Hw' |]. simpl.
  apply Forall2_app; [exact Hl |]. constructor; [| constructor].
  split; [reflexivity |]. simpl.
  destruct r1 as [a|e1], r2 as [b|e2]; simpl in *; auto.
Qed.

Lemma rel_with {A B} (eqvA : A -> A -> Prop) (eqvB : B -> B -> Prop)
    (enter exit_ : M W _) (body1 body2 : A -> M W B) :
  rel_M eqvA enter enter ->
  rel_M eq exit_ exit_ ->
  (forall a b, eqvA a b -> rel_M eqvB (body1 a) (body2 b)) ->
  rel_M eqvB (with_ enter exit_ body1) (with_ enter exit_ body2).
Proof.
  intros He Hx Hb p1 p2 Hp. unfold with_.
  destruct (He p1 p2 Hp) as [Hr Hp1].
  destruct (enter p1) as [[a|e1] q1], (enter p2) as [[b|e2] q2]; simpl in *;
    try contradiction; [| split; assumption].
  destruct (Hb a b Hr q1 q2 Hp1) as [Hr2 Hp2].
  destruct (body1 a q1) as [r1 q1'], (body2 b q2) as [r2 q2']; simpl in *.
  split; [exact Hr2 |]. now apply Hx.
Qed.

Lemma same_event_raised (l1 l2 : list event) :
  Forall2 same_event l1 l2 ->
  forall c e, In (c, Raise e) l1 <-> In (c, Raise e) l2.
Proof.
  induction 1 as [|[c1 a1] [c2 a2] l1 l2 [Hc Ha] _ IH]; intros c e; [reflexivity |].
  simpl in Hc, Ha. subst c2. simpl. rewrite IH.
  destruct a1 as [v1|e1], a2 as [v2|e2]; simpl in Ha; try contradiction.
  - split; intros [[=]|Hin]; now right.
  - subst e2. reflexivity.
Qed.

Section Unchanged.
Hypothesis HU : unchanged.

Lemma poll_same (cond : W -> bool) n :
  (forall w1 w2, R w1 w2 -> cond w1 = cond w2) ->
  forall w1 w2, R w1 w2 ->
    (poll L n cond w1).1 = (poll L n cond w2).1 /\
    R (poll L n cond w1).2 (poll L n cond w2).2.
Proof.
  intros Hcond. induction n as [|n IH]; intros w1 w2 Hw; simpl;
    rewrite <- (Hcond w1 w2 Hw); destruct (cond w1); simpl; auto.
  apply IH. now apply same_tick.
Qed.

Lemma expect_same (cond : W -> bool) message :
  (forall w1 w2, R w1 w2 -> cond w1 = cond w2) ->
  forall w1 w2, R w1 w2 ->
    same_answer eq (expect L cond message w1) (expect L cond message w2).
Proof.
  intros Hcond w1 w2 Hw. unfold expect.
  destruct (poll_same cond (retries L) Hcond w1 w2 Hw) as [Hb Hw'].
  destruct (poll L (retries L) cond w1) as [b1 w1'],
           (poll L (retries L) cond w2) as [b2 w2'].
  simpl in *. subst b2. split; [| exact Hw']. now destruct b1.
Qed.

Lemma rel_unit_call c (op : W -> result unit * W) :
  (forall w1 w2, R w1 w2 -> same_answer eq (op w1) (op w2)) ->
  rel_M eq (invoke c (fun _ => VNone) op) (invoke c (fun _ => VNone) op).
Proof. intros Hop. apply rel_invoke; [exact Hop | reflexivity]. Qed.

Lemma rel_verify_profile_page page :
  rel_M eq (verify_profile_page L page) (verify_profile_page L page).
Proof.
  unfold verify_profile_page, page_goto, locator_fill, locator_click,
    expect_to_have_url, expect_to_be_visible, page_screenshot.
  repeat (apply rel_bind with (eqvA := eq);
          [apply rel_unit_call; intros w1 w2 Hw | intros _ _ _]).
  10: { apply rel_bind with (eqvA := any_bytes).
        - apply rel_invoke; [intros w1 w2 Hw; now apply same_capture | reflexivity].
        - intros _ _ _. now apply rel_ret. }
  - now apply same_goto.
  - now apply same_fill.
  - now apply same_fill.
  - now apply same_click.
  - apply expect_same; [| exact Hw].
    intros w1' w2' Hw'. now rewrite (same_url HU page w1' w2' Hw').
  - now apply same_click.
  - now apply same_click.
  - apply expect_same; [| exact Hw].
    intros w1' w2' Hw'. now rewrite (same_url HU page w1' w2' Hw').
  - apply expect_same; [| exact Hw]. intros w1' w2' Hw'. now apply (same_visible HU).
Qed.

Lemma rel_main : rel_M eq (main L) (main L).
Proof.
  unfold main. apply rel_with with (eqvA := eq).
  - apply rel_unit_call. intros w1 w2 Hw. now apply same_start.
  - apply rel_unit_call. intros w1 w2 Hw. split; [reflexivity |].
    now apply same_stop.
  - intros _ _ _. apply rel_bind with (eqvA := eq).
    + apply rel_invoke; [intros w1 w2 Hw; now apply same_launch |].
      now intros a b ->.
    + intros browser _ <-. apply rel_bind with (eqvA := eq).
      * apply rel_invoke; [intros w1 w2 Hw; now apply same_new_page |].
        now intros a b ->.
      * intros page _ <-. apply rel_bind with (eqvA := eq).
        -- apply rel_verify_profile_page.
        -- intros _ _ _. apply rel_unit_call. intros w1 w2 Hw.
           now apply same_close.
Qed.

(** C9: when the application answers the second run as it answered the
    first (the state the first run leaves is related by [R] to the state
    it started from), the two runs of the script have the same exit
    status and the same log of calls with the same outcomes, so the
    same call raises the same error in both, if any does; only the
    bytes of the screenshots may differ. *)
Theorem rerun_same_outcome (argv : list string)
    (environ : gmap string string) (w : W) (dir : string)
    (fs : gmap string image) :
  let first := run L argv environ w dir fs in
  R w (world first.2) ->
  let second := run L argv environ (world first.2) dir (files first.2) in
  second.1 = first.1 /\
  Forall2 same_event (log first.2) (log second.2) /\
  (forall c e, In (c, Raise e) (log first.2) <-> In (c, Raise e) (log second.2)).
Proof.
  intros first Hw second. unfold first, second, run, script in *.
  destruct (main L (boot w dir fs)) as [r1 p1] eqn:E1. simpl in *.
  destruct (main L (boot (world p1) dir (files p1))) as [r2 p2] eqn:E2. simpl.
  destruct (rel_main (boot w dir fs) (boot (world p1) dir (files p1)))
    as [Hr [_ Hl]]; [split; [exact Hw | constructor] |].
  rewrite E1, E2 in Hr, Hl. simpl in Hr, Hl.
  split; [| split; [exact Hl | now apply same_event_raised]].
  destruct r1 as [[]|e1], r2 as [[]|e2]; simpl in *; try contradiction;
    reflexivity.
Qed.

End Unchanged.

End Rerun.

(** ** The demo application answers alike whatever its visit counter *)

Module DemoFacts.
Import Demo.

Lemma library_unchanged s : unchanged (library s) same_site.
Proof.
  constructor; simpl;
    try (intros; match goal with
                 | H : same_site ?w1 ?w2 |- _ =>
                     destruct w1 as [s1 e1 p1 v1], w2 as [s2 e2 p2 v2];
                     destruct H as (Hs & He & Hp); simpl in Hs, He, Hp; subst
                 end;
         unfold same_answer, same_site, go, type_into, press, address_of, shows,
           any_bytes; simpl;
         repeat case_match; simpl; auto).
Qed.

End DemoFacts.

(** ** The script on the demo application *)

(** The standard application: the script exits with status 0, and the
    picture of the viewport replaces the old one. *)
Lemma screenshot_on_success_witness :
  (run (Demo.library Demo.standard) [] ∅ Demo.fresh Demo.repo Demo.disk).1 = 0 /\
  let p := (run (Demo.library Demo.standard) [] ∅ Demo.fresh Demo.repo Demo.disk).2 in
  exists pg b wb wb',
    capture (Demo.library Demo.standard) pg false wb = (Return b, wb') /\
    List.filter is_screenshot (calls (log p)) =
      [Screenshot pg "jules-scratch/verification/profile_page.png" None] /\
    full_page_of (Screenshot pg "jules-scratch/verification/profile_page.png" None)
      = Some false /\
    In (Screenshot pg "jules-scratch/verification/profile_page.png" None,
        Return (VBytes b)) (log p) /\
    last (List.filter on_page (calls (log p))) =
      Some (Screenshot pg "jules-scratch/verification/profile_page.png" None) /\
    files p = <[resolve Demo.repo screenshot_path := b]> Demo.disk /\
    files p !! resolve Demo.repo screenshot_path = Some b.
Proof.
  split; [vm_compute; reflexivity |].
  apply (screenshot_on_success (Demo.library Demo.standard) [] ∅ Demo.fresh
           Demo.repo Demo.disk).
  vm_compute. reflexivity.
Defined.

(** C2 as stated fails: on the standard application the script exits
    with status 0, no call of the run asks for the full page, and the
    file holds the picture of the viewport, which is not the picture of
    the full page. *)
Lemma full_page_screenshot_counterexample :
  let out := run (Demo.library Demo.standard) [] ∅ Demo.fresh Demo.repo Demo.disk in
  let shown := Demo.Site Demo.ProfilePage "admin@gorectus.local" "admin123" 1 in
  out.1 = 0 /\
  (forall ev, In ev (log out.2) -> full_page_of ev.1 <> Some true) /\
  files out.2 !! Demo.output_file = Some (Demo.pixels false shown) /\
  Demo.pixels false shown <> Demo.pixels true shown.
Proof.
  cbv zeta. split; [vm_compute; reflexivity |].
  split; [| split; [vm_compute; reflexivity | discriminate]].
  intros ev Hin. vm_compute in Hin.
  repeat (destruct Hin as [<-|Hin]; [simpl; discriminate |]).
  destruct Hin.
Qed.

(** C3 as stated fails: an application whose dashboard is at
    /admin/dashboard/overview.  The URL does not end in /dashboard, the
    assertion returns all the same, and the script exits with status 0.
    Anchoring the pattern at the start only ([match_]) accepts the URL
    too; anchoring it at both ends ([fullmatch]) would not. *)
Lemma url_suffix_counterexample :
  let L := Demo.library
             (Demo.Setup "http://localhost:3000/admin/dashboard/overview" true) in
  let w := Demo.Site Demo.Dashboard "admin@gorectus.local" "admin123" 1 in
  let address := list_ascii_of_string (url L 2 w) in
  url L 2 w = "http://localhost:3000/admin/dashboard/overview" /\
  tick L w = w /\
  (expect_to_have_url L 2 (Re.compile ".*/dashboard")
     (Process w Demo.repo Demo.disk [])).1 = Return tt /\
  ~ Re.ends_with (list_ascii_of_string "/dashboard") address /\
  Re.match_ (Re.compile ".*/dashboard") address = true /\
  Re.fullmatch (Re.compile ".*/dashboard") address = false /\
  (run L [] ∅ Demo.fresh Demo.repo Demo.disk).1 = 0.
Proof.
  cbv zeta. repeat split; try (vm_compute; reflexivity).
  intros [pre E]. apply (f_equal (@rev ascii)) in E.
  rewrite rev_app_distr in E. vm_compute in E. discriminate.
Qed.

(** An application without the Profile item in the account menu: the
    click on it raises, no screenshot is taken and the old picture stays. *)
Lemma no_screenshot_after_failure_witness :
  let L := Demo.library (Demo.Setup "http://localhost:3000/admin/dashboard" false) in
  let p := (script L [] ∅ (boot Demo.fresh Demo.repo Demo.disk)).2 in
  In (Click 2 (get_by_role "menuitem" "Profile"),
      Raise (Demo.not_found "Profile")) (log p) /\
  (forall c', In c' (calls (log p)) -> is_screenshot c' = false) /\
  files p = Demo.disk /\
  files p !! resolve Demo.repo screenshot_path
    = Demo.disk !! resolve Demo.repo screenshot_path.
Proof.
  cbv zeta.
  assert (Hin : In (Click 2 (get_by_role "menuitem" "Profile"),
                    Raise (Demo.not_found "Profile"))
                   (log (script (Demo.library
                           (Demo.Setup "http://localhost:3000/admin/dashboard" false))
                           [] ∅ (boot Demo.fresh Demo.repo Demo.disk)).2)).
  { vm_compute. do 9 right. left. reflexivity. }
  split; [exact Hin |].
  exact (no_screenshot_after_failure _ [] ∅ Demo.fresh Demo.repo Demo.disk
           _ _ Hin eq_refl).
Defined.

(** Two runs in succession on the standard application: the second
    starts where the first stopped, with one visit more on the counter. *)
Lemma rerun_same_outcome_witness :
  let L := Demo.library Demo.standard in
  let first := run L [] ∅ Demo.fresh Demo.repo Demo.disk in
  let second := run L [] ∅ (world first.2) Demo.repo (files first.2) in
  Demo.same_site Demo.fresh (world first.2) /\
  files first.2 !! Demo.output_file <> files second.2 !! Demo.output_file /\
  second.1 = first.1 /\
  Forall2 same_event (log first.2) (log second.2) /\
  (forall c e, In (c, Raise e) (log first.2) <-> In (c, Raise e) (log second.2)).
Proof.
  cbv zeta.
  assert (Hw : Demo.same_site Demo.fresh
                 (world (run (Demo.library Demo.standard) [] ∅ Demo.fresh
                           Demo.repo Demo.disk).2)).
  { vm_compute. repeat split. }
  split; [exact Hw |]. split; [vm_compute; discriminate |].
  exact (rerun_same_outcome (Demo.library Demo.standard) Demo.same_site
           (DemoFacts.library_unchanged Demo.standard) [] ∅ Demo.fresh Demo.repo
           Demo.disk Hw).
Defined.

(** *** The runs, evaluated *)

Example compile_dashboard :
  Re.compile ".*/dashboard" =
  Re.Cat (Re.Star Re.Dot) (Re.literal (list_ascii_of_string "/dashboard")).
Proof. reflexivity. Qed.

Example search_accepts_longer_address :
  url_matches (Re.compile ".*/profile") "http://localhost:3000/admin/profile?tab=1"
    = true /\
  url_matches (Re.compile ".*/profile") "http://localhost:3000/admin/login"
    = false.
Proof. split; reflexivity. Qed.

Example standard_run_passes :
  (run (Demo.library Demo.standard) [] ∅ Demo.fresh Demo.repo Demo.disk).1 = 0.
Proof. vm_compute. reflexivity. Qed.

(** Without the Profile item the run stops at the seventh call on the
    page; [browser.close()] is not reached, the exit of the [with] block
    is, and the exit status is 1. *)
Example run_without_profile_item :
  let out := run (Demo.library (Demo.Setup "http://localhost:3000/admin/dashboard" false))
                 [] ∅ Demo.fresh Demo.repo Demo.disk in
  out.1 = 1 /\
  calls (log out.2) =
    [SyncPlaywrightEnter; Launch true; NewPage 1] ++ take 7 (profile_steps 2)
      ++ [SyncPlaywrightExit] /\
  resources_after (log out.2) = idle /\
  files out.2 = Demo.disk.
Proof. cbv zeta. repeat split; vm_compute; reflexivity. Qed.

(** With a wrong password the login form stays, and the assertion on
    the dashboard URL raises when its polls are used up. *)
Example run_when_login_is_rejected :
  let L := Demo.library Demo.standard in
  let w := Demo.Site Demo.LoginForm "admin@gorectus.local" "wrong" 1 in
  (click L 2 (get_by_role "button" "Sign In") w).1 = Return tt /\
  (expect_to_have_url L 2 (Re.compile ".*/dashboard")
     (Process (click L 2 (get_by_role "button" "Sign In") w).2
              Demo.repo Demo.disk [])).1
    = Raise (AssertionError "Page URL expected to match").
Proof. cbv zeta. split; vm_compute; reflexivity. Qed.

(** ** Further properties of the script *)

Section Further.
Context {W : Type} (L : Library W).

Lemma script_advanced argv environ w dir fs :
  exists t w',
    main_run L w t (script L argv environ (boot w dir fs)).1 w' /\
    (script L argv environ (boot w dir fs)).2 = Process w' dir (files_after dir t fs) t.
Proof.
  unfold script.
  destruct (main_spec L (boot w dir fs)) as (t & w' & Hrun & Hp).
  exists t, w'. split; [exact Hrun |]. rewrite Hp. reflexivity.
Qed.

(** *** When [browser.close()] raises *)

Lemma main_run_closed w t r w' br a :
  main_run L w t r w' -> In (Close br, a) t ->
  exists pg img t1,
    t = t1 ++ [(Screenshot pg screenshot_path None, Return (VBytes img));
               (Close br, a); exited] /\
    Forall (fun ev => is_screenshot ev.1 = false) t1 /\
    In (launched br) t1 /\
    ((a = Return VNone /\ r = Return tt) \/ (exists e, a = Raise e /\ r = Raise e)).
Proof.
  intros Hrun Hin. main_cases Hrun.
  - destruct Hin as [[=]|[]].
  - simpl in Hin. unfold entered, exited in Hin. intuition discriminate.
  - simpl in Hin. unfold entered, exited, launched in Hin. intuition discriminate.
  - exfalso. apply steps_on_page, on_page_not_harness in Ht as (_ & _ & Hno & _).
    simpl in Hin. destruct Hin as [[=]|[[=]|[[=]|Hin]]].
    apply in_app_or in Hin as [Hin|[[=]|[]]]. now apply Hno in Hin.
  - pose proof (steps_on_page L _ _ _ _ _ Ht) as Hpg.
    apply on_page_not_harness in Hpg as (_ & _ & Hno & _).
    apply steps_shape in Ht as [(t1 & img & wb & _ & -> & Hall & _)|(e & [=] & _)].
    simpl in Hin. destruct Hin as [[=]|[[=]|[[=]|Hin]]].
    apply in_app_or in Hin as [Hin|[[= <- <-]|[[=]|[]]]]; [now apply Hno in Hin |].
    exists pg, img, ([entered; launched b; opened b pg] ++ t1).
    split; [now rewrite <- !app_assoc |]. split; [| split; [right; now left | eauto]].
    repeat (apply Forall_cons; split; [reflexivity |]). exact Hall.
  - pose proof (steps_on_page L _ _ _ _ _ Ht) as Hpg.
    apply on_page_not_harness in Hpg as (_ & _ & Hno & _).
    apply steps_shape in Ht as [(t1 & img & wb & _ & -> & Hall & _)|(e & [=] & _)].
    simpl in Hin. destruct Hin as [[=]|[[=]|[[=]|Hin]]].
    apply in_app_or in Hin as [Hin|[[= <- <-]|[[=]|[]]]]; [now apply Hno in Hin |].
    exists pg, img, ([entered; launched b; opened b pg] ++ t1).
    split; [now rewrite <- !app_assoc |]. split; [| split; [right; now left | auto]].
    repeat (apply Forall_cons; split; [reflexivity |]). exact Hall.
Qed.

(** X3: [browser.close()] comes after the screenshot.  When it raises,
    the script exits with status 1 and that error, and the picture is
    in the output file all the same; the block is still left, so that
    nothing stays live. *)
Theorem close_failure_keeps_screenshot (argv : list string)
    (environ : gmap string string) (w : W) (dir : string)
    (fs : gmap string image) (b : handle) (e : exn) :
  In (Close b, Raise e) (log (script L argv environ (boot w dir fs)).2) ->
  (script L argv environ (boot w dir fs)).1 = Raise e /\
  (run L argv environ w dir fs).1 = 1 /\
  (exists pg img,
      In (Screenshot pg screenshot_path None, Return (VBytes img))
         (log (script L argv environ (boot w dir fs)).2) /\
      files (script L argv environ (boot w dir fs)).2
        = <[resolve dir screenshot_path := img]> fs) /\
  last (log (script L argv environ (boot w dir fs)).2) = Some exited /\
  resources_after (log (script L argv environ (boot w dir fs)).2) = idle.
Proof.
  unfold run.
  destruct (script_advanced argv environ w dir fs) as (t & w' & Hrun & Ep).
  destruct (script L argv environ (boot w dir fs)) as [r p]. simpl in *. subst p.
  simpl. intros Hin.
  destruct (main_run_closed _ _ _ _ _ _ Hrun Hin)
    as (pg & img & t1 & -> & Hall & _ & [[[=] _]|(e' & [= <-] & ->)]).
  split; [reflexivity |]. split; [reflexivity |]. split; [| split].
  - exists pg, img. split; [apply in_or_app; right; now left |].
    apply files_after_shot; [exact Hall | repeat constructor].
  - change (last (t1 ++ [(Screenshot pg screenshot_path None, Return (VBytes img));
                         (Close b, Raise e)] ++ [exited]) = Some exited).
    rewrite !app_assoc. apply last_snoc.
  - change (resources_after
              (t1 ++ [(Screenshot pg screenshot_path None, Return (VBytes img));
                      (Close b, Raise e)] ++ [exited]) = idle).
    rewrite !app_assoc. now rewrite resources_after_snoc.
Qed.

(** X4: when the driver does not start, [sync_playwright().__enter__()]
    raises before the block is entered: it is the only call of the run,
    the exit of the block is not called, no browser is launched and no
    file is written; the script exits with status 1 and that error. *)
Theorem driver_failure_is_the_only_call (argv : list string)
    (environ : gmap string string) (w : W) (dir : string)
    (fs : gmap string image) (e : exn) :
  In (SyncPlaywrightEnter, Raise e)
     (log (script L argv environ (boot w dir fs)).2) ->
  log (script L argv environ (boot w dir fs)).2 = [(SyncPlaywrightEnter, Raise e)] /\
  (script L argv environ (boot w dir fs)).1 = Raise e /\
  (run L argv environ w dir fs).1 = 1 /\
  files (script L argv environ (boot w dir fs)).2 = fs /\
  (start L w).1 = Raise e.
Proof.
  unfold run.
  destruct (script_advanced argv environ w dir fs) as (t & w' & Hrun & Ep).
  destruct (script L argv environ (boot w dir fs)) as [r p]. simpl in *. subst p.
  simpl. intros Hin. main_cases Hrun.
  - destruct Hin as [[= <-]|[]]. rewrite Hs. repeat split.
  - exfalso. simpl in Hin. unfold entered, exited in Hin. intuition discriminate.
  - exfalso. simpl in Hin. unfold entered, exited, launched in Hin.
    intuition discriminate.
  - exfalso. apply steps_on_page in Ht. rewrite Forall_forall in Ht.
    simpl in Hin. destruct Hin as [[=]|[[=]|[[=]|Hin]]].
    apply in_app_or in Hin as [Hin|[[=]|[]]].
    apply list_elem_of_In, Ht in Hin. discriminate.
  - exfalso. apply steps_on_page in Ht. rewrite Forall_forall in Ht.
    simpl in Hin. destruct Hin as [[=]|[[=]|[[=]|Hin]]].
    apply in_app_or in Hin as [Hin|[[=]|[[=]|[]]]].
    apply list_elem_of_In, Ht in Hin. discriminate.
  - exfalso. apply steps_on_page in Ht. rewrite Forall_forall in Ht.
    simpl in Hin. destruct Hin as [[=]|[[=]|[[=]|Hin]]].
    apply in_app_or in Hin as [Hin|[[=]|[[=]|[]]]].
    apply list_elem_of_In, Ht in Hin. discriminate.
Qed.

(** *** The call that raises and the calls made *)

(** X5: a step of [verify_profile_page] that raises fixes the whole
    run: the calls made are the start of the driver, the launch, the
    new page, the steps up to and including that one, and the exit of
    the block.  No later step is made, [browser.close()] is not called,
    and the script exits with status 1 and the error of that step. *)
Theorem failing_step_cuts_the_run (argv : list string)
    (environ : gmap string string) (w : W) (dir : string)
    (fs : gmap string image) (c : call) (e : exn) (page : handle) :
  In (c, Raise e) (log (script L argv environ (boot w dir fs)).2) ->
  page_of c = Some page ->
  exists br k,
    profile_steps page !! k = Some c /\
    calls (log (script L argv environ (boot w dir fs)).2) =
      [SyncPlaywrightEnter; Launch true; NewPage br]
        ++ take (S k) (profile_steps page) ++ [SyncPlaywrightExit] /\
    (forall b' a, ~ In (Close b', a) (log (script L argv environ (boot w dir fs)).2)) /\
    (script L argv environ (boot w dir fs)).1 = Raise e /\
    (run L argv environ w dir fs).1 = 1.
Proof.
  unfold run.
  destruct (script_advanced argv environ w dir fs) as (t' & w' & Hrun & Ep).
  destruct (script L argv environ (boot w dir fs)) as [r p].
  cbn [fst snd] in *. subst p. cbn [log]. intros Hin Hpage. main_cases Hrun.
  - destruct Hin as [[= <- _]|[]]. discriminate.
  - exfalso. simpl in Hin. unfold entered, exited in Hin.
    destruct Hin as [[=]|[[= <- _]|[[=]|[]]]]. discriminate.
  - exfalso. simpl in Hin. unfold entered, exited, launched in Hin.
    destruct Hin as [[=]|[[=]|[[= <- _]|[[=]|[]]]]]. discriminate.
  - pose proof (steps_on_page L _ _ _ _ _ Ht) as Hpg.
    pose proof (trace_of_prefix L _ _ _ _ _ Ht) as [rest Hrest].
    pose proof (on_page_not_harness _ _ Hpg) as (_ & _ & Hno & _).
    apply trace_of_raise in Ht as (t1 & c0 & -> & Hret).
    simpl in Hin. destruct Hin as [[=]|[[=]|[[=]|Hin]]].
    apply in_app_or in Hin as [Hin|[[=]|[]]].
    apply in_raised_split in Hin; [| exact Hret].
    destruct Hin as [[= <- <-]|[]].
    assert (page = pg) as ->.
    { rewrite Forall_forall in Hpg.
      specialize (Hpg (c0, Raise e0)). simpl in Hpg.
      rewrite Hpage in Hpg. symmetry. injection Hpg as <-; [reflexivity |].
      apply list_elem_of_In, in_or_app. right. now left. }
    rewrite calls_app in Hrest.
    change (calls [(c0, Raise e0)]) with [c0] in Hrest.
    exists b, (length t1). split; [| split; [| split; [| split]]].
    + rewrite Hrest, <- app_assoc. apply list_lookup_middle.
      now rewrite calls_length.
    + rewrite !calls_app.
      change (calls [(c0, Raise e0)]) with [c0].
      change (calls [entered; launched b; opened b pg])
        with [SyncPlaywrightEnter; Launch true; NewPage b].
      change (calls [exited]) with [SyncPlaywrightExit].
      f_equal. f_equal. rewrite Hrest at 1.
      rewrite take_app_length'; [reflexivity |].
      rewrite length_app, calls_length. unfold event. simpl. lia.
    + intros b' a Hc. simpl in Hc. destruct Hc as [[=]|[[=]|[[=]|Hc]]].
      apply in_app_or in Hc as [Hc|[[=]|[]]]. now apply Hno in Hc.
    + reflexivity.
    + reflexivity.
  - exfalso. apply trace_of_return in Ht as [_ Hret].
    simpl in Hin. destruct Hin as [[=]|[[=]|[[=]|Hin]]].
    apply in_app_or in Hin as [Hin|[[= <- _]|[[=]|[]]]]; [| discriminate].
    rewrite Forall_forall in Hret. apply list_elem_of_In, Hret in Hin. discriminate.
  - exfalso. apply trace_of_return in Ht as [_ Hret].
    simpl in Hin. destruct Hin as [[=]|[[=]|[[=]|Hin]]].
    apply in_app_or in Hin as [Hin|[[=]|[[=]|[]]]].
    rewrite Forall_forall in Hret. apply list_elem_of_In, Hret in Hin. discriminate.
Qed.

(** X6: the script exits with status 0 exactly when it made all fifteen
    calls and all of them returned: the start of the driver, the launch
    of the headless browser, the new page of that browser, the ten steps
    on that page, the close of that browser and the exit of the block. *)
Theorem exit_zero_iff_all_calls (argv : list string)
    (environ : gmap string string) (w : W) (dir : string)
    (fs : gmap string image) :
  (run L argv environ w dir fs).1 = 0 <->
  exists br page,
    calls (log (run L argv environ w dir fs).2) =
      [SyncPlaywrightEnter; Launch true; NewPage br]
        ++ profile_steps page ++ [Close br; SyncPlaywrightExit] /\
    In (launched br) (log (run L argv environ w dir fs).2) /\
    In (opened br page) (log (run L argv environ w dir fs).2) /\
    Forall (fun ev => event_returned ev = true) (log (run L argv environ w dir fs).2).
Proof.
  unfold run.
  destruct (script_advanced argv environ w dir fs) as (t' & w' & Hrun & Ep).
  destruct (script L argv environ (boot w dir fs)) as [r p]. simpl in *. subst p.
  simpl. split.
  - intros Hr. assert (r = Return tt) as -> by (destruct r as [[]|]; [reflexivity | discriminate]).
    pose proof (proj1 (main_run_returned L _ _ _ _ Hrun) eq_refl) as Hall.
    inversion Hrun as [| | | | |w0 b w1 pg w2 t w3 w4 Hs Hl Hn Ht Hc]; subst.
    apply trace_of_return in Ht as [Hcalls _].
    exists b, pg. split; [| split; [| split; [| exact Hall]]].
    + rewrite !calls_app, Hcalls. reflexivity.
    + right. now left.
    + right. right. now left.
  - intros (br & page & _ & _ & _ & Hall).
    now rewrite (proj2 (main_run_returned L _ _ _ _ Hrun) Hall).
Qed.

(** X7: when the launch of the browser or the opening of the page
    raises, no call is made on a page and [browser.close()] is not
    called, also when a browser was launched; the block is left, after
    which nothing is live, and the script exits with status 1 and that
    error. *)
Theorem startup_failure_makes_no_page_call (argv : list string)
    (environ : gmap string string) (w : W) (dir : string)
    (fs : gmap string image) (c : call) (e : exn) :
  In (c, Raise e) (log (script L argv environ (boot w dir fs)).2) ->
  is_launch c || is_new_page c = true ->
  (forall c', In c' (calls (log (script L argv environ (boot w dir fs)).2)) ->
              page_of c' = None) /\
  (forall b' a, ~ In (Close b', a) (log (script L argv environ (boot w dir fs)).2)) /\
  last (log (script L argv environ (boot w dir fs)).2) = Some exited /\
  resources_after (log (script L argv environ (boot w dir fs)).2) = idle /\
  files (script L argv environ (boot w dir fs)).2 = fs /\
  (script L argv environ (boot w dir fs)).1 = Raise e.
Proof.
  destruct (script_advanced argv environ w dir fs) as (t' & w' & Hrun & Ep).
  destruct (script L argv environ (boot w dir fs)) as [r p]. simpl in *. subst p.
  simpl. intros Hin Hkind. main_cases Hrun.
  - destruct Hin as [[= <- _]|[]]. discriminate.
  - simpl in Hin. unfold entered, exited in Hin.
    destruct Hin as [[=]|[[= _ <-]|[[=]|[]]]].
    repeat split.
    + intros c' Hc'. simpl in Hc'. intuition (subst; reflexivity).
    + intros b' a Ha. simpl in Ha. unfold entered, exited in Ha.
      intuition discriminate.
  - simpl in Hin. unfold entered, exited, launched in Hin.
    destruct Hin as [[=]|[[=]|[[= _ <-]|[[=]|[]]]]].
    repeat split.
    + intros c' Hc'. simpl in Hc'. intuition (subst; reflexivity).
    + intros b' a Ha. simpl in Ha. unfold entered, exited, launched in Ha.
      intuition discriminate.
  - exfalso. pose proof (steps_on_page L _ _ _ _ _ Ht) as Hpg.
    rewrite Forall_forall in Hpg.
    simpl in Hin. destruct Hin as [[=]|[[=]|[[=]|Hin]]].
    apply in_app_or in Hin as [Hin|[[=]|[]]].
    apply list_elem_of_In, Hpg in Hin. simpl in Hin. destruct c; discriminate.
  - exfalso. pose proof (steps_on_page L _ _ _ _ _ Ht) as Hpg.
    rewrite Forall_forall in Hpg.
    simpl in Hin. destruct Hin as [[=]|[[=]|[[=]|Hin]]].
    apply in_app_or in Hin as [Hin|[[= <- _]|[[=]|[]]]]; [| discriminate].
    apply list_elem_of_In, Hpg in Hin. simpl in Hin. destruct c; discriminate.
  - exfalso. pose proof (steps_on_page L _ _ _ _ _ Ht) as Hpg.
    rewrite Forall_forall in Hpg.
    simpl in Hin. destruct Hin as [[=]|[[=]|[[=]|Hin]]].
    apply in_app_or in Hin as [Hin|[[=]|[[=]|[]]]].
    apply list_elem_of_In, Hpg in Hin. simpl in Hin. destruct c; discriminate.
Qed.

(** X8: [verify_profile_page] uses nothing but the page it is given:
    whatever that page and the state it is called in, it makes between
    one and ten calls, all of them on that page; it starts or stops no
    driver, launches or closes no browser and opens no page. *)
Theorem verify_profile_page_stays_on_its_page (page : handle) (p : process W) :
  exists t w',
    (verify_profile_page L page p).2 = advanced p t w' /\
    Forall (fun ev => page_of ev.1 = Some page) t /\
    1 <= length t <= 10 /\
    List.filter is_launch (calls t) = [] /\
    List.filter is_new_page (calls t) = [] /\
    (forall br a, ~ In (Close br, a) t) /\
    (forall a, ~ In (SyncPlaywrightExit, a) t).
Proof.
  destruct (verify_profile_page_trace L page p) as (t & w' & Ht & Hp).
  exists t, w'. split; [exact Hp |].
  pose proof (steps_on_page L _ _ _ _ _ Ht) as Hpg.
  pose proof (on_page_not_harness _ _ Hpg) as (Hl & Hn & Hc & Hx & _).
  split; [exact Hpg |]. split; [| auto].
  split.
  - unfold profile_steps in Ht.
    apply trace_of_cons_inv in Ht as [(e & _ & -> & _)|(v & w1 & t' & _ & _ & ->)];
      simpl; lia.
  - apply trace_of_prefix, prefix_length in Ht.
    rewrite calls_length in Ht. exact Ht.
Qed.

End Further.

(** *** The further properties on the demo application *)

(** A browser that raises when it is closed: the picture is written,
    the exit status is 1. *)
Lemma close_failure_keeps_screenshot_witness :
  let L := Faulty.stuck_browser in
  let e := Error "Browser.close: Connection closed" in
  let out := script L [] ∅ (boot Demo.fresh Demo.repo Demo.disk) in
  In (Close 1, Raise e) (log out.2) /\
  out.1 = Raise e /\
  (run L [] ∅ Demo.fresh Demo.repo Demo.disk).1 = 1 /\
  (exists pg img,
      In (Screenshot pg screenshot_path None, Return (VBytes img)) (log out.2) /\
      files out.2 = <[resolve Demo.repo screenshot_path := img]> Demo.disk) /\
  last (log out.2) = Some exited /\
  resources_after (log out.2) = idle.
Proof.
  cbv zeta.
  assert (Hin : In (Close 1, Raise (Error "Browser.close: Connection closed"))
                   (log (script Faulty.stuck_browser [] ∅
                           (boot Demo.fresh Demo.repo Demo.disk)).2)).
  { vm_compute. do 13 right. left. reflexivity. }
  split; [exact Hin |].
  exact (close_failure_keeps_screenshot Faulty.stuck_browser [] ∅ Demo.fresh
           Demo.repo Demo.disk 1 _ Hin).
Defined.

(** A driver that does not start. *)
Lemma driver_failure_is_the_only_call_witness :
  let L := Faulty.no_driver in
  let e := Error "Driver failed to start" in
  let out := script L [] ∅ (boot Demo.fresh Demo.repo Demo.disk) in
  In (SyncPlaywrightEnter, Raise e) (log out.2) /\
  log out.2 = [(SyncPlaywrightEnter, Raise e)] /\
  out.1 = Raise e /\
  (run L [] ∅ Demo.fresh Demo.repo Demo.disk).1 = 1 /\
  files out.2 = Demo.disk /\
  (start L Demo.fresh).1 = Raise e.
Proof.
  cbv zeta.
  assert (Hin : In (SyncPlaywrightEnter, Raise (Error "Driver failed to start"))
                   (log (script Faulty.no_driver [] ∅
                           (boot Demo.fresh Demo.repo Demo.disk)).2)).
  { vm_compute. left. reflexivity. }
  split; [exact Hin |].
  exact (driver_failure_is_the_only_call Faulty.no_driver [] ∅ Demo.fresh
           Demo.repo Demo.disk _ Hin).
Defined.

(** An application that sends the user to /admin/home after the login:
    the assertion on the dashboard URL, the fifth step, raises. *)
Lemma failing_step_cuts_the_run_witness :
  let L := Demo.library (Demo.Setup "http://localhost:3000/admin/home" true) in
  let c := ToHaveUrl 2 (Re.compile ".*/dashboard") in
  let e := AssertionError "Page URL expected to match" in
  let out := script L [] ∅ (boot Demo.fresh Demo.repo Demo.disk) in
  In (c, Raise e) (log out.2) /\
  page_of c = Some 2 /\
  exists br k,
    profile_steps 2 !! k = Some c /\
    calls (log out.2) =
      [SyncPlaywrightEnter; Launch true; NewPage br]
        ++ take (S k) (profile_steps 2) ++ [SyncPlaywrightExit] /\
    (forall b' a, ~ In (Close b', a) (log out.2)) /\
    out.1 = Raise e /\
    (run L [] ∅ Demo.fresh Demo.repo Demo.disk).1 = 1.
Proof.
  cbv zeta.
  assert (Hin : In (ToHaveUrl 2 (Re.compile ".*/dashboard"),
                    Raise (AssertionError "Page URL expected to match"))
                   (log (script (Demo.library
                                   (Demo.Setup "http://localhost:3000/admin/home" true))
                           [] ∅ (boot Demo.fresh Demo.repo Demo.disk)).2)).
  { vm_compute. do 7 right. left. reflexivity. }
  split; [exact Hin |]. split; [reflexivity |].
  exact (failing_step_cuts_the_run _ [] ∅ Demo.fresh Demo.repo Demo.disk
           _ _ 2 Hin eq_refl).
Defined.

(** A browser that opens no page: it was launched, and is not closed by
    [browser.close()]. *)
Lemma startup_failure_makes_no_page_call_witness :
  let L := Faulty.no_page in
  let e := Error "Target page, context or browser has been closed" in
  let out := script L [] ∅ (boot Demo.fresh Demo.repo Demo.disk) in
  In (NewPage 1, Raise e) (log out.2) /\
  In (launched 1) (log out.2) /\
  (forall c', In c' (calls (log out.2)) -> page_of c' = None) /\
  (forall b' a, ~ In (Close b', a) (log out.2)) /\
  last (log out.2) = Some exited /\
  resources_after (log out.2) = idle /\
  files out.2 = Demo.disk /\
  out.1 = Raise e.
Proof.
  cbv zeta.
  assert (Hin : In (NewPage 1,
                    Raise (Error "Target page, context or browser has been closed"))
                   (log (script Faulty.no_page [] ∅
                           (boot Demo.fresh Demo.repo Demo.disk)).2)).
  { vm_compute. do 2 right. left. reflexivity. }
  split; [exact Hin |]. split; [vm_compute; right; left; reflexivity |].
  exact (startup_failure_makes_no_page_call Faulty.no_page [] ∅ Demo.fresh
           Demo.repo Demo.disk _ _ Hin eq_refl).
Defined.

(** *** The calls made on the standard application *)

(** The driver starts, the browser is launched and the page opened: the
    fourth, fifth and sixth calls of the run are the navigation and the
    two values typed. *)
Lemma fixed_inputs_witness :
  let L := Demo.library Demo.standard in
  let t := log (script L [] ∅ (boot Demo.fresh Demo.repo Demo.disk)).2 in
  start L Demo.fresh = (Return tt, Demo.fresh) /\
  launch L true Demo.fresh = (Return 1, Demo.fresh) /\
  new_page L 1 Demo.fresh = (Return 2, Demo.fresh) /\
  t !! 3 = Some (Goto 2 "http://localhost:3000/admin/login", Return VNone) /\
  t !! 4 = Some (Fill 2 (get_by_label "Email Address") "admin@gorectus.local",
                 Return VNone) /\
  t !! 5 = Some (Fill 2 (get_by_label "Password") "admin123", Return VNone).
Proof.
  cbv zeta. split; [reflexivity |]. split; [reflexivity |]. split; [reflexivity |].
  destruct (fixed_inputs (Demo.library Demo.standard) [] [] ∅ ∅ Demo.fresh
              Demo.repo Demo.disk) as (_ & Hmade & _).
  destruct (Hmade Demo.fresh 1 Demo.fresh 2 Demo.fresh eq_refl eq_refl eq_refl)
    as (E3 & Hnext).
  destruct (Hnext eq_refl) as (E4 & Hlast).
  split; [exact E3 |]. split; [exact E4 |]. exact (Hlast eq_refl).
Defined.

(** On the standard application one browser is launched, headless, one
    page is opened on it, and all ten steps are made on that page. *)
Lemma one_browser_one_page_witness :
  let L := Demo.library Demo.standard in
  let t := log (script L [] ∅ (boot Demo.fresh Demo.repo Demo.disk)).2 in
  start L Demo.fresh = (Return tt, Demo.fresh) /\
  launch L true Demo.fresh = (Return 1, Demo.fresh) /\
  new_page L 1 Demo.fresh = (Return 2, Demo.fresh) /\
  List.filter is_launch (calls t) = [Launch true] /\
  List.filter is_new_page (calls t) = [NewPage 1] /\
  t !! 2 = Some (opened 1 2) /\
  length (List.filter on_page (calls t)) = 10 /\
  Forall (fun c => page_of c = Some 2) (List.filter on_page (calls t)) /\
  resources_after (take 13 t) = Resources true [1] [(2, 1)].
Proof.
  cbv zeta. split; [reflexivity |]. split; [reflexivity |]. split; [reflexivity |].
  destruct (one_browser_one_page (Demo.library Demo.standard) [] ∅ Demo.fresh
              Demo.repo Demo.disk) as (H1 & H2 & H3 & _).
  destruct (H1 Demo.fresh eq_refl) as (_ & _ & El).
  destruct (H2 Demo.fresh 1 Demo.fresh eq_refl eq_refl) as (_ & _ & En & _).
  destruct (H3 Demo.fresh 1 Demo.fresh 2 Demo.fresh eq_refl eq_refl eq_refl)
    as (Eo & _ & Hall & Hlive).
  split; [exact El |]. split; [exact En |]. split; [exact Eo |].
  split; [vm_compute; reflexivity |]. split; [exact Hall |].
  apply (Hlive 10). vm_compute. repeat constructor.
Defined.

(** From /repo the picture is written under /repo; from the root it is
    written at /jules-scratch/verification/profile_page.png, and the
    file under /repo is left as it was. *)
Lemma screenshot_path_relative_witness :
  let L := Demo.library Demo.standard in
  let p := (script L [] ∅ (boot Demo.fresh Demo.repo Demo.disk)).2 in
  let p' := (script L [] ∅ (boot Demo.fresh "/" Demo.disk)).2 in
  exit_status (script L [] ∅ (boot Demo.fresh Demo.repo Demo.disk)).1 = 0 /\
  (exists pg b,
      In (Screenshot pg "jules-scratch/verification/profile_page.png" None,
          Return (VBytes b)) (log p)) /\
  resolve Demo.repo "jules-scratch/verification/profile_page.png"
    = Demo.output_file /\
  files p !! Demo.output_file = Some [Byte.x01; Byte.x2a] /\
  files p' !! "/jules-scratch/verification/profile_page.png"
    = Some [Byte.x01; Byte.x2a] /\
  files p' !! Demo.output_file = Some Demo.old_picture.
Proof.
  cbv zeta.
  destruct (screenshot_path_relative (Demo.library Demo.standard) [] ∅
              Demo.fresh Demo.repo Demo.disk) as (_ & Hshot & _ & _ & _ & Hdir & Hother).
  assert (Hr : exit_status (script (Demo.library Demo.standard) [] ∅
                              (boot Demo.fresh Demo.repo Demo.disk)).1 = 0)
    by (vm_compute; reflexivity).
  split; [exact Hr |]. split; [exact (Hshot Hr) |].
  split; [exact (Hdir eq_refl ltac:(discriminate)) |].
  split; [vm_compute; reflexivity |]. split; [vm_compute; reflexivity |].
  refine (eq_trans (Hother "/" Demo.disk eq_refl eq_refl ltac:(discriminate)) _).
  vm_compute. reflexivity.
Defined.
